(** * process_srt.py: telemetry reader, frame sampling and geotag fields

    A shallow embedding of [src/process_srt.py].  Python text is modelled as
    Rocq [string]s whose characters are code points below 256, Python [int]
    as [Z], Python [float] as IEEE-754 binary64 through the Standard
    Library's [spec_float] (precision 53, [emax] 1024), a [dict] as a
    [gmap], and raised exceptions as the [Raise] branch of [outcome]. *)

From Stdlib Require Import ZArith NArith List String Ascii Bool Lia DecimalString Sorted.
From Stdlib Require Import QArith Qround Qpower Floats.SpecFloat.
From stdpp Require Import gmap strings.

Local Open Scope string_scope.
Local Open Scope Z_scope.

(** ** Exceptions *)

Inductive exn : Type :=
| KeyError (key : string)
| ValueError
| ZeroDivisionError
| OverflowError
| IndexError.

Inductive outcome (A : Type) : Type :=
| Return (a : A)
| Raise (e : exn).
Arguments Return {A} a.
Arguments Raise {A} e.

#[global] Instance outcome_ret : MRet outcome := fun _ a => Return a.

#[global] Instance outcome_bind : MBind outcome := fun _ _ k x =>
  match x with
  | Return a => k a
  | Raise e => Raise e
  end.

(** ** Characters and the classes the program relies on *)

Definition code (c : ascii) : N := N_of_ascii c.

Definition between (lo hi : N) (c : ascii) : bool :=
  ((lo <=? code c) && (code c <=? hi))%N.

Definition is_digit (c : ascii) : bool := between 48 57 c.

(** [str.isspace]: what [\s] matches in a [str] pattern. *)
Definition is_space (c : ascii) : bool :=
  between 9 13 c || between 28 32 c
  || (code c =? 133)%N || (code c =? 160)%N.

(** [str.isalnum] or underscore: what [\w] matches in a [str] pattern. *)
Definition is_word (c : ascii) : bool :=
  is_digit c || between 65 90 c || between 97 122 c || (code c =? 95)%N
  || (code c =? 170)%N || between 178 179 c || (code c =? 181)%N
  || between 185 186 c || between 188 190 c
  || between 192 214 c || between 216 246 c || between 248 255 c.

(** The class [[^\s\[\]]]. *)
Definition is_value_char (c : ascii) : bool :=
  negb (is_space c || (code c =? 91)%N || (code c =? 93)%N).

(** Whitespace stripped by [int(str)] and [float(str)]: C [isspace] after
    the conversion of non-ASCII spaces to a blank. *)
Definition is_strip_space (c : ascii) : bool :=
  between 9 13 c || (code c =? 32)%N
  || (code c =? 133)%N || (code c =? 160)%N.

Definition LF : ascii := ascii_of_N 10.
Definition CR : ascii := ascii_of_N 13.

Definition is_empty (s : string) : bool :=
  match s with
  | EmptyString => true
  | String _ _ => false
  end.

(** Longest prefix whose characters satisfy [p], and the rest. *)
Fixpoint span (p : ascii -> bool) (s : string) : string * string :=
  match s with
  | EmptyString => (EmptyString, EmptyString)
  | String c r =>
      if p c then let '(a, b) := span p r in (String c a, b)
      else (EmptyString, s)
  end.

(** ** Text files: [open(path, "r")] and [readline] *)

(** Universal newlines: ["\r\n"] and a lone ["\r"] are read as ["\n"]. *)
Fixpoint translate_newlines (s : string) : string :=
  match s with
  | EmptyString => EmptyString
  | String c r =>
      if Ascii.eqb c CR then
        match r with
        | String d r' =>
            if Ascii.eqb d LF then String LF (translate_newlines r')
            else String LF (translate_newlines r)
        | EmptyString => String LF EmptyString
        end
      else String c (translate_newlines r)
  end.

(** The state of an open text file is the text not read yet. *)
Definition file := string.

Definition open (content : string) : file := translate_newlines content.

(** [file.readline()]: the next line with its newline, [""] at end of file. *)
Fixpoint readline (f : file) : string * file :=
  match f with
  | EmptyString => (EmptyString, EmptyString)
  | String c r =>
      if Ascii.eqb c LF then (String c EmptyString, r)
      else let '(l, f') := readline r in (String c l, f')
  end.

(** ** [read_line_attributes] *)

(** One attempt of the pattern [(\w+):\s([^\s\[\]]+)] at the start of [s]:
    the two groups and the number of characters matched.  [\w+] is greedy
    and a colon is no word character, so a shorter key never helps. *)
Definition match_here (s : string) : option (string * string * nat) :=
  let '(key, r1) := span is_word s in
  if is_empty key then None
  else
    match r1 with
    | String colon (String sp r2) =>
        if (code colon =? 58)%N && is_space sp then
          let '(val, _) := span is_value_char r2 in
          if is_empty val then None
          else Some (key, val, (String.length key + 2 + String.length val)%nat)
        else None
    | _ => None
    end.

(** [re.findall]: leftmost matches, scanning resumes where a match ended.
    [skip] counts the characters of the last match still to pass over. *)
Fixpoint findall_from (skip : nat) (s : string) : list (string * string) :=
  match s with
  | EmptyString => []
  | String _ r =>
      match skip with
      | S n => findall_from n r
      | O =>
          match match_here s with
          | Some (key, val, len) => (key, val) :: findall_from (Nat.pred len) r
          | None => findall_from O r
          end
      end
  end.

Definition findall (s : string) : list (string * string) := findall_from O s.

(** [ret[key] = val] for each pair in order: the last occurrence wins. *)
Definition read_line_attributes (line : string) : gmap string string :=
  fold_left (fun ret kv => <[fst kv := snd kv]> ret) (findall line) ∅.

(** [attrs[key]] *)
Definition getitem (attrs : gmap string string) (key : string) : outcome string :=
  match attrs !! key with
  | Some v => Return v
  | None => Raise (KeyError key)
  end.

(** ** Python [int] and [str] helpers *)

(** [s.split(sep)] for a one-character separator: never the empty list. *)
Fixpoint split (sep : ascii) (s : string) : list string :=
  match s with
  | EmptyString => [EmptyString]
  | String c r =>
      if Ascii.eqb c sep then EmptyString :: split sep r
      else
        match split sep r with
        | p :: ps => String c p :: ps
        | [] => [String c EmptyString]
        end
  end.

(** [str(n)] for an [int]. *)
Definition str (n : Z) : string :=
  DecimalString.NilZero.string_of_int (Z.to_int n).

Fixpoint lstrip (s : string) : string :=
  match s with
  | EmptyString => EmptyString
  | String c r => if is_strip_space c then lstrip r else s
  end.

Fixpoint rstrip (s : string) : string :=
  match s with
  | EmptyString => EmptyString
  | String c r =>
      let r' := rstrip r in
      if is_empty r' && is_strip_space c then EmptyString else String c r'
  end.

Definition strip (s : string) : string := lstrip (rstrip s).

Definition is_underscore (c : ascii) : bool := (code c =? 95)%N.

(** Digit grouping: an underscore must stand between two digits; the
    text without its underscores, or [None] when one is misplaced. *)
Fixpoint drop_underscores (prev : ascii) (s : string) : option string :=
  match s with
  | EmptyString => if is_underscore prev then None else Some EmptyString
  | String c r =>
      if is_underscore c then
        if is_digit prev then drop_underscores c r else None
      else if is_underscore prev && negb (is_digit c) then None
      else option_map (String c) (drop_underscores c r)
  end.

Definition digit_value (c : ascii) : Z := Z.of_N (code c) - 48.

(** Value of a run of decimal digits, continuing from [acc]. *)
Fixpoint digits_value (acc : Z) (s : string) : Z :=
  match s with
  | EmptyString => acc
  | String c r => digits_value (10 * acc + digit_value c) r
  end.

(** An optional sign: whether it is a minus, and the rest. *)
Definition read_sign (s : string) : bool * string :=
  match s with
  | String c r =>
      if (code c =? 45)%N then (true, r)
      else if (code c =? 43)%N then (false, r)
      else (false, s)
  | EmptyString => (false, s)
  end.



(** ** Python [float]: IEEE-754 binary64 *)

Definition prec : Z := 53.
Definition emax : Z := 1024.

Abbreviation float := spec_float.

Definition fzero : float := S754_zero false.
Definition fadd : float -> float -> float := SFadd prec emax.
Definition fsub : float -> float -> float := SFsub prec emax.
Definition fmul : float -> float -> float := SFmul prec emax.
Definition fdiv : float -> float -> float := SFdiv prec emax.
Definition feqb : float -> float -> bool := SFeqb.
Definition fltb : float -> float -> bool := SFltb.
Definition fabs : float -> float := SFabs.

(** The double nearest to an integer (ties to even); may be an infinity. *)
Definition round_Z (n : Z) : float := binary_normalize prec emax n 0 false.

(** Conversion of an [int] operand of a float operation. *)
Definition float_of_int (n : Z) : outcome float :=
  match round_Z n with
  | S754_infinity _ => Raise OverflowError
  | f => Return f
  end.

(** [int(x)] for a [float]: truncation toward zero. *)
Definition int_of_float (x : float) : outcome Z :=
  match x with
  | S754_nan => Raise ValueError
  | S754_infinity _ => Raise OverflowError
  | S754_zero _ => Return 0
  | S754_finite s m e =>
      Return (cond_Zopp s
                (if 0 <=? e then Z.shiftl (Zpos m) e
                 else Z.shiftr (Zpos m) (- e)))
  end.

Definition sign_bit (x : float) : bool :=
  match x with
  | S754_zero s | S754_infinity s | S754_finite s _ _ => s
  | S754_nan => false
  end.

(** C [copysign(0.0, y)]. *)
Definition zero_with_sign_of (y : float) : float := S754_zero (sign_bit y).

(** C [floor]. *)
Definition ffloor (x : float) : float :=
  match x with
  | S754_finite s m e =>
      if 0 <=? e then x
      else
        let q := Z.shiftr (Zpos m) (- e) in
        let exact := Z.shiftl q (- e) =? Zpos m in
        if s then round_Z (- (if exact then q else q + 1))
        else round_Z q
  | _ => x
  end.

(** C [fmod]: exact, with the sign of the dividend. *)
Definition ffmod (x y : float) : float :=
  match x, y with
  | S754_nan, _ | _, S754_nan => S754_nan
  | S754_infinity _, _ => S754_nan
  | _, S754_zero _ => S754_nan
  | S754_zero _, _ => x
  | _, S754_infinity _ => x
  | S754_finite sx mx ex, S754_finite _ my ey =>
      let ez := Z.min ex ey in
      let ax := Zpos (fst (shl_align mx ex ez)) in
      let ay := Zpos (fst (shl_align my ey ez)) in
      binary_normalize prec emax (cond_Zopp sx (ax mod ay)) ez sx
  end.

(** Truth value of a float: anything but a zero. *)
Definition truthy (x : float) : bool := negb (feqb x fzero).

Definition fone : float := round_Z 1.
Definition fhalf : float := S754_finite false 4503599627370496 (-53).

(** [divmod(vx, wx)] on floats, following the interpreter's
    [float_divmod]. *)
Definition float_divmod (vx wx : float) : outcome (float * float) :=
  if feqb wx fzero then Raise ZeroDivisionError
  else
    let mod0 := ffmod vx wx in
    let div0 := fdiv (fsub vx mod0) wx in
    let '(mod1, div1) :=
      if truthy mod0 then
        if xorb (fltb wx fzero) (fltb mod0 fzero)
        then (fadd mod0 wx, fsub div0 fone)
        else (mod0, div0)
      else (zero_with_sign_of wx, div0) in
    let floordiv :=
      if truthy div1 then
        let fl := ffloor div1 in
        if fltb fhalf (fsub div1 fl) then fadd fl fone else fl
      else zero_with_sign_of (fdiv vx wx) in
    Return (floordiv, mod1).

(** The double nearest to [m * 10 ^ e10], with the given sign. *)
Definition float_of_decimal (neg : bool) (m e10 : Z) : float :=
  if m =? 0 then S754_zero neg
  else if 0 <=? e10 then
    binary_normalize prec emax (cond_Zopp neg (m * 10 ^ e10)) 0 neg
  else
    fdiv (S754_finite neg (Z.to_pos m) 0)
         (S754_finite false (Z.to_pos (10 ^ (- e10))) 0).

Definition lower (c : ascii) : ascii :=
  if between 65 90 c then ascii_of_N (code c + 32) else c.

Fixpoint lower_str (s : string) : string :=
  match s with
  | EmptyString => EmptyString
  | String c r => String (lower c) (lower_str r)
  end.

(** The exponent part of a decimal literal: [e], an optional sign and at
    least one digit, up to the end of the text. *)
Definition read_exponent (s : string) : option Z :=
  match s with
  | EmptyString => Some 0
  | String c r =>
      if (code (lower c) =? 101)%N then
        let '(neg, r1) := read_sign r in
        let '(d, rest) := span is_digit r1 in
        if is_empty d || negb (is_empty rest) then None
        else Some (if neg then - digits_value 0 d else digits_value 0 d)
      else None
  end.

(** [float(s)] for a [str]. *)
Definition float_of_str (s : string) : outcome float :=
  match drop_underscores Ascii.zero (strip s) with
  | None => Raise ValueError
  | Some t =>
      let '(neg, body) := read_sign t in
      let word := lower_str body in
      if String.eqb word "inf" || String.eqb word "infinity"
      then Return (S754_infinity neg)
      else if String.eqb word "nan" then Return S754_nan
      else
        let '(ip, r1) := span is_digit body in
        let '(fp, r2) :=
          match r1 with
          | String c r => if (code c =? 46)%N then span is_digit r
                          else (EmptyString, r1)
          | EmptyString => (EmptyString, r1)
          end in
        if is_empty ip && is_empty fp then Raise ValueError
        else
          match read_exponent r2 with
          | None => Raise ValueError
          | Some e =>
              Return (float_of_decimal neg (digits_value (digits_value 0 ip) fp)
                        (e - Z.of_nat (String.length fp)))
          end
  end.

(** Numbers passed where the source says [float]: the command line hands
    an [int] to [main]. *)
Inductive number : Type :=
| Int (n : Z)
| Float (x : float).

Definition to_float (v : number) : outcome float :=
  match v with
  | Int n => float_of_int n
  | Float x => Return x
  end.

(** [a % b] on [int]. *)
Definition int_mod (a b : Z) : outcome Z :=
  if b =? 0 then Raise ZeroDivisionError else Return (a mod b).

(** ** The program *)

Definition DEFAULT_INC_SECONDS : Z := 1.
Definition OUTPUT_DIR : string := "./out/".

Record ImageData : Type := {
  lat : float;
  long : float;
  abs_alt : float;
  focal_len : float;
  frame_num : Z
}.

(** [calculate_frame_increment]; the frame rate reported by the video
    reader for [mp4_path] is an input of the model. *)
Definition calculate_frame_increment (seconds : number) (framerate : float)
  : outcome Z :=
  s ← to_float seconds;
  int_of_float (fmul framerate s).

(** [float(attrs[key])] *)
Definition float_item (attrs : gmap string string) (key : string)
  : outcome float :=
  v ← getitem attrs key;
  float_of_str v.

(** The condition of the [if] in the loop of [get_meta_info], with the
    short-circuit evaluation of [and] and [or]. *)
Definition selected (attrs : gmap string string) (count inc_frames : Z)
  : outcome bool :=
  r ← int_mod count inc_frames;
  if r =? 0 then
    la ← float_item attrs "latitude";
    if negb (feqb la fzero) then Return true
    else
      lo ← float_item attrs "longitude";
      Return (negb (feqb lo fzero))
  else Return false.

(** The [ImageData(...)] call: keyword arguments are evaluated in the
    order they are written. *)
Definition new_image_data (attrs : gmap string string) (count : Z)
  : outcome ImageData :=
  lo ← float_item attrs "longitude";
  la ← float_item attrs "latitude";
  al ← float_item attrs "abs_alt";
  fo ← float_item attrs "focal_len";
  Return {| lat := la; long := lo; abs_alt := al; focal_len := fo;
            frame_num := count |}.

(** One pass through the loop body for the attribute line [next_line]. *)
Definition loop_body (result : list ImageData) (next_line : string)
    (count inc_frames : Z) : outcome (list ImageData) :=
  let attrs := read_line_attributes next_line in
  keep ← selected attrs count inc_frames;
  if (keep : bool) then
    d ← new_image_data attrs count;
    Return (result ++ [d])%list
  else Return result.

(** [n] calls of [readline] whose results are dropped. *)
Fixpoint skip_lines (n : nat) (f : file) : file :=
  match n with
  | O => f
  | S n' => skip_lines n' (snd (readline f))
  end.

(** The [while True] loop; [None] only when [fuel] runs out. *)
Fixpoint get_meta_info_loop (fuel : nat) (f : file) (inc_frames count : Z)
    (result : list ImageData) : option (outcome (list ImageData)) :=
  match fuel with
  | O => None
  | S fuel' =>
      let '(next_line, f1) := readline f in
      if is_empty next_line then Some (Return result)
      else
        match loop_body result next_line count inc_frames with
        | Raise e => Some (Raise e)
        | Return result' =>
            get_meta_info_loop fuel' (skip_lines 5 f1) inc_frames
              (count + 1) result'
        end
  end.

(** [get_meta_info]; [content] is the text of the file at [srt_f].  Every
    turn of the loop reads at least one character, so the length of the
    text bounds the number of turns. *)
Definition get_meta_info (content : string) (inc_frames : Z)
  : option (outcome (list ImageData)) :=
  let f := skip_lines 4 (open content) in
  get_meta_info_loop (S (String.length f)) f inc_frames 0 [].

(** [decimal_degrees_to_minutes_seconds] *)
Definition decimal_degrees_to_minutes_seconds (decimal : float)
  : outcome (float * float * float) :=
  factor ← float_of_int 3600;
  base ← float_of_int 60;
  '(mnt, sec) ← float_divmod (fmul (fabs decimal) factor) base;
  '(deg, mnt) ← float_divmod mnt base;
  Return (deg, mnt, sec).

Inductive GpsAltitudeRef : Type := ABOVE_SEA_LEVEL | BELOW_SEA_LEVEL.

(** The fields [save_images] assigns on the EXIF image of a frame. *)
Record ExifFields : Type := {
  gps_latitude : float * float * float;
  gps_latitude_ref : string;
  gps_longitude : float * float * float;
  gps_longitude_ref : string;
  gps_altitude : float;
  gps_altitude_ref : GpsAltitudeRef;
  focal_length : float
}.

Definition exif_fields (frame : ImageData) : outcome ExifFields :=
  la ← decimal_degrees_to_minutes_seconds (lat frame);
  lo ← decimal_degrees_to_minutes_seconds (long frame);
  Return {|
    gps_latitude := la;
    gps_latitude_ref := if fltb fzero (lat frame) then "N" else "S";
    gps_longitude := lo;
    gps_longitude_ref := if fltb fzero (long frame) then "E" else "W";
    gps_altitude := fabs (abs_alt frame);
    gps_altitude_ref := if fltb fzero (abs_alt frame)
                        then ABOVE_SEA_LEVEL else BELOW_SEA_LEVEL;
    focal_length := focal_len frame
  |}.

(** [l[-1]] and [l[0]] on a list. *)
Definition last_item {A : Type} (l : list A) : outcome A :=
  match last l with
  | Some x => Return x
  | None => Raise IndexError
  end.

Definition first_item {A : Type} (l : list A) : outcome A :=
  match head l with
  | Some x => Return x
  | None => Raise IndexError
  end.

(** [OUTPUT_DIR + video_path.split('/')[-1].split('.')[0] + '_'] *)
Definition out_prefix (video_path : string) : outcome string :=
  name ← last_item (split "/" video_path);
  stem ← first_item (split "." name);
  Return (OUTPUT_DIR +:+ stem +:+ "_").

(** [out_prefix + str(frame.frame_num) + '.jpg'] *)
Definition saved_name (prefix : string) (frame : ImageData) : string :=
  prefix +:+ str (frame_num frame) +:+ ".jpg".

(** The [for frame in frames] loop: the files written, in order, each
    with the fields embedded in it.  Decoding and encoding the pixels is
    left to the video and image libraries. *)
Fixpoint export_frames (prefix : string) (frames : list ImageData)
  : outcome (list (string * ExifFields)) :=
  match frames with
  | [] => Return []
  | frame :: rest =>
      fields ← exif_fields frame;
      written ← export_frames prefix rest;
      Return ((saved_name prefix frame, fields) :: written)
  end.

(** [save_images] *)
Definition save_images (frames : list ImageData) (video_path : string)
  : outcome (list (string * ExifFields)) :=
  prefix ← out_prefix video_path;
  export_frames prefix frames.

(** [main]; the text of the telemetry file and the frame rate of the
    video stand for the two files named by the paths. *)
Definition main (srt_content mp4_path : string) (framerate : float)
    (inc_seconds : number) : option (outcome (list (string * ExifFields))) :=
  match calculate_frame_increment inc_seconds framerate with
  | Raise e => Some (Raise e)
  | Return frame_increment =>
      match get_meta_info srt_content frame_increment with
      | None => None
      | Some r => Some (im_data ← r; save_images im_data mp4_path)
      end
  end.


(** ** The reader, seen line by line *)

(** [file.readlines()]: every remaining line, terminators kept. *)
Fixpoint readlines (f : file) : list string :=
  match f with
  | EmptyString => []
  | String c r =>
      if Ascii.eqb c LF then String c EmptyString :: readlines r
      else
        match readlines r with
        | l :: ls => String c l :: ls
        | [] => [String c EmptyString]
        end
  end.

(** The first line of a list and every sixth one after it. *)
Fixpoint every_sixth (ls : list string) : list string :=
  match ls with
  | [] => []
  | a :: r =>
      a :: match r with
           | _ :: _ :: _ :: _ :: _ :: r' => every_sixth r'
           | _ => []
           end
  end.

(** The lines [get_meta_info] hands to [read_line_attributes]: physical
    lines 5, 11, 17, ... of the file. *)
Definition attribute_lines (content : string) : list string :=
  every_sixth (drop 4 (readlines (open content))).

(** The loop body applied to a list of attribute lines in turn. *)
Fixpoint scan (inc_frames count : Z) (result : list ImageData)
    (lines : list string) : outcome (list ImageData) :=
  match lines with
  | [] => Return result
  | l :: rest =>
      match loop_body result l count inc_frames with
      | Raise e => Raise e
      | Return result' => scan inc_frames (count + 1) result' rest
      end
  end.


(** ** Vocabulary of the properties *)

(** The value of a required attribute on an attribute line, when the key
    is present and its text is a float literal. *)
Definition attr_float (line key : string) : option float :=
  match read_line_attributes line !! key with
  | Some v =>
      match float_of_str v with
      | Return x => Some x
      | Raise _ => None
      end
  | None => None
  end.

(** The line reports latitude and longitude both equal to 0.0. *)
Definition is_sentinel (line : string) : bool :=
  match attr_float line "latitude", attr_float line "longitude" with
  | Some la, Some lo => feqb la fzero && feqb lo fzero
  | _, _ => false
  end.

(** The frame counter is a multiple of the increment. *)
Definition aligned (count inc_frames : Z) : bool := count mod inc_frames =? 0.

(** The sample a line stands for, when its four attributes are there. *)
Definition sample (count : Z) (line : string) : option ImageData :=
  match attr_float line "latitude", attr_float line "longitude",
        attr_float line "abs_alt", attr_float line "focal_len" with
  | Some la, Some lo, Some al, Some fo =>
      Some {| lat := la; long := lo; abs_alt := al; focal_len := fo;
              frame_num := count |}
  | _, _, _, _ => None
  end.

(** The samples of the qualifying lines, in file order: counter aligned
    with the increment and position not the sentinel. *)
Fixpoint expected (inc_frames count : Z) (lines : list string)
  : list ImageData :=
  match lines with
  | [] => []
  | l :: rest =>
      match sample count l with
      | Some d =>
          if aligned count inc_frames && negb (is_sentinel l)
          then d :: expected inc_frames (count + 1) rest
          else expected inc_frames (count + 1) rest
      | None => expected inc_frames (count + 1) rest
      end
  end.

(** What the reader needs of a line to get past it: the line is skipped
    by the increment, or it is the sentinel, or it is complete. *)
Definition passable (inc_frames count : Z) (line : string) : Prop :=
  aligned count inc_frames = false
  \/ is_sentinel line = true
  \/ is_Some (sample count line).

(** ** Layout of a telemetry log *)

(** The six lines of a frame, as the docstring of [get_meta_info] lists
    them; each is the text of the line without its newline. *)
Record block : Type := {
  ordinal : string;
  time_range : string;
  frame_count : string;
  date_time : string;
  attributes : string;
  separator : string
}.

Definition block_lines (b : block) : list string :=
  [ordinal b; time_range b; frame_count b; date_time b; attributes b;
   separator b].

(** A line of text holds no line break. *)
Fixpoint is_plain (l : string) : bool :=
  match l with
  | EmptyString => true
  | String c r => negb (Ascii.eqb c LF) && negb (Ascii.eqb c CR) && is_plain r
  end.

(** The text of a file made of the given lines, each ended by a newline. *)
Fixpoint unlines (ls : list string) : string :=
  match ls with
  | [] => EmptyString
  | l :: rest => l +:+ String LF (unlines rest)
  end.

(** A log that is nothing but frames, one after the other. *)
Definition srt_text (blocks : list block) : string :=
  unlines (concat (map block_lines blocks)).

(** A log with lines of its own before the first frame. *)
Definition srt_text_with_header (header : list string) (blocks : list block)
  : string :=
  unlines (header ++ concat (map block_lines blocks))%list.

(** The attribute line of a frame as [readline] returns it. *)
Definition attribute_line (b : block) : string :=
  attributes b +:+ String LF EmptyString.

(** Every line of the frame is a line of text. *)
Definition plain_block (b : block) : Prop :=
  Forall (fun l => is_plain l = true) (block_lines b).

(** The keys the reader looks up, and when the lookup of [key] is the
    first to fail on a line: the keys read before it are there with
    numeric values and, past the position test, the position is not the
    sentinel. *)
Inductive first_missing (line : string) : string -> Prop :=
| missing_latitude :
    read_line_attributes line !! "latitude" = None ->
    first_missing line "latitude"
| missing_longitude :
    is_Some (attr_float line "latitude") ->
    read_line_attributes line !! "longitude" = None ->
    first_missing line "longitude"
| missing_abs_alt :
    is_Some (attr_float line "latitude") ->
    is_Some (attr_float line "longitude") ->
    is_sentinel line = false ->
    read_line_attributes line !! "abs_alt" = None ->
    first_missing line "abs_alt"
| missing_focal_len :
    is_Some (attr_float line "latitude") ->
    is_Some (attr_float line "longitude") ->
    is_sentinel line = false ->
    is_Some (attr_float line "abs_alt") ->
    read_line_attributes line !! "focal_len" = None ->
    first_missing line "focal_len".

(** ** Sample data used in the examples *)

Definition demo_attributes : string :=
  "[latitude: 1.5] [longitude: 2.5] [abs_alt: 3.0] [focal_len: 4.0]".

Definition demo_block : block := {|
  ordinal := "1";
  time_range := "00:00:00,000 --> 00:00:00,033";
  frame_count := "FrameCnt: 1";
  date_time := "2024-01-01 10:00:00";
  attributes := demo_attributes;
  separator := ""
|}.

(** A frame without a GPS fix and without altitude or focal length. *)
Definition sentinel_block : block := {|
  ordinal := "2";
  time_range := "00:00:00,033 --> 00:00:00,066";
  frame_count := "FrameCnt: 2";
  date_time := "2024-01-01 10:00:00";
  attributes := "[latitude: 0.0] [longitude: 0.0]";
  separator := ""
|}.

(** A frame at (0.0, 0.0) with all four attributes. *)
Definition origin_block : block := {|
  ordinal := "2";
  time_range := "00:00:00,033 --> 00:00:00,066";
  frame_count := "FrameCnt: 2";
  date_time := "2024-01-01 10:00:00";
  attributes := "[latitude: 0.0] [longitude: 0.0] [abs_alt: 3.0] [focal_len: 4.0]";
  separator := ""
|}.

(** A frame with a position and no altitude. *)
Definition no_altitude_block : block := {|
  ordinal := "2";
  time_range := "00:00:00,033 --> 00:00:00,066";
  frame_count := "FrameCnt: 2";
  date_time := "2024-01-01 10:00:00";
  attributes := "[latitude: 1.5] [longitude: 2.5] [focal_len: 4.0]";
  separator := ""
|}.

(** A frame whose attribute line carries no attribute at all. *)
Definition bare_block : block := {|
  ordinal := "3";
  time_range := "00:00:00,066 --> 00:00:00,100";
  frame_count := "FrameCnt: 3";
  date_time := "2024-01-01 10:00:00";
  attributes := "no telemetry";
  separator := ""
|}.

Definition demo_header : list string :=
  ["header 1"; "header 2"; "header 3"; "header 4"].

(** The reading of the log the specification describes: after a header of
    four lines, frames of six lines with the attributes on the fifth, and
    one sample for each qualifying frame. *)
Definition reads_as_specified (header : list string) (blocks : list block)
    (inc_frames : Z) : Prop :=
  get_meta_info (srt_text_with_header header blocks) inc_frames
  = Some (Return (expected inc_frames 0 (map attribute_line blocks))).

Definition required_keys : list string :=
  ["latitude"; "longitude"; "abs_alt"; "focal_len"].

(** The abort the specification asks for: whenever a frame whose counter
    is a multiple of the increment lacks a required key, the run ends on
    a lookup failure. *)
Definition aborts_on_missing_key (content : string) (inc_frames : Z) : Prop :=
  (exists (i : nat) (l key : string),
      attribute_lines content !! i = Some l
      /\ aligned (Z.of_nat i) inc_frames = true
      /\ key ∈ required_keys
      /\ read_line_attributes l !! key = None) ->
  exists key : string,
    get_meta_info content inc_frames = Some (Raise (KeyError key)).

(** ** Names of the exported files *)

Fixpoint contains (ch : ascii) (s : string) : bool :=
  match s with
  | EmptyString => false
  | String c r => Ascii.eqb c ch || contains ch r
  end.

(** The file name written for a frame of the video at [video_path]. *)
Definition exported_name (video_path : string) (frame : ImageData)
  : outcome string :=
  prefix ← out_prefix video_path;
  Return (saved_name prefix frame).

(** In the words of the specification: the part of a path after its last
    slash, and a file name without its extension, the extension starting
    at the last dot. *)
Fixpoint spec_base_filename (path : string) : string :=
  match path with
  | EmptyString => EmptyString
  | String c r =>
      if Ascii.eqb c "/" || contains "/" r then spec_base_filename r
      else path
  end.

Fixpoint spec_strip_extension (name : string) : string :=
  match name with
  | EmptyString => EmptyString
  | String c r =>
      if Ascii.eqb c "." && negb (contains "." r) then EmptyString
      else String c (spec_strip_extension r)
  end.

Definition spec_exported_name (video_path : string) (frame_index : Z)
  : string :=
  OUTPUT_DIR +:+ spec_strip_extension (spec_base_filename video_path)
  +:+ "_" +:+ str frame_index +:+ ".jpg".

Definition names_as_specified (video_path : string) (frame : ImageData)
  : Prop :=
  exported_name video_path frame
  = Return (spec_exported_name video_path (frame_num frame)).

(** The sample [demo_block] stands for. *)
Definition demo_sample (count : Z) : ImageData := {|
  lat := S754_finite false 6755399441055744 (-52);
  long := S754_finite false 5629499534213120 (-51);
  abs_alt := S754_finite false 6755399441055744 (-51);
  focal_len := S754_finite false 4503599627370496 (-50);
  frame_num := count
|}.

Definition frame_42 : ImageData := demo_sample 42.


(** ** The interval argument *)



Fixpoint all_chars (p : ascii -> bool) (s : string) : bool :=
  match s with
  | EmptyString => true
  | String c r => p c && all_chars p r
  end.

(** ** Real values of floats *)

(** The number a float stands for; 0 for the infinities and NaN. *)
Definition Qvalue (x : float) : Q :=
  match x with
  | S754_finite s m e => (inject_Z (cond_Zopp s (Zpos m)) * (2 # 1) ^ e)%Q
  | _ => 0%Q
  end.

Definition is_finite (x : float) : bool :=
  match x with
  | S754_finite _ _ _ | S754_zero _ => true
  | _ => false
  end.


(** In the words of the specification: [max(1, floor(seconds * framerate))]
    on the product the program computes. *)
Definition increment_as_specified (seconds : number) (framerate : float)
  : Prop :=
  forall s : float,
    to_float seconds = Return s ->
    calculate_frame_increment seconds framerate
    = Return (Z.max 1 (Qfloor (Qvalue (fmul framerate s)))).

Definition half_fps : float := S754_finite false 4503599627370496 (-53).

(** ** Exact values of doubles *)

(** Number of binary digits of a mantissa. *)
Definition digits (m : positive) : Z := Zpos (digits2_pos m).

(** The exponent a double with [k] digits before the binary point takes. *)
Definition fexp64 (k : Z) : Z := Z.max (k - 53) (-1074).

(** The value of a double counted in units of [2 ^ -1074], the spacing
    of the smallest doubles: an integer for every well-formed double. *)
Definition scaled (x : float) : Z :=
  match x with
  | S754_finite s m e => cond_Zopp s (Zpos m * 2 ^ (e + 1074))
  | _ => 0
  end.

(** A well-formed double that is zero or positive, with positive sign. *)
Definition plain_nonneg (x : float) : Prop :=
  x = S754_zero false
  \/ exists (m : positive) (e : Z),
       x = S754_finite false m e /\ bounded prec emax m e = true.

(** A value short enough for a double: at most 53 significant bits, in
    units of [2 ^ -1074], and below [2 ^ 53]. *)
Definition small_exact (v : Z) : Prop :=
  exists n t : Z, 0 < n < 2 ^ 53 /\ 0 <= t /\ v = n * 2 ^ t /\ v < 2 ^ 1127.

(** The double [x] is well formed, not negative, and worth [v] units. *)
Definition holds (x : float) (v : Z) : Prop := plain_nonneg x /\ scaled x = v.

Definition sixty : float := S754_finite false 8444249301319680 (-47).


Definition overflowing_angle : float := S754_finite false 5010420900022432 971.
Definition harbour_latitude : float := S754_finite true 4766609845608933 (-47).

(** * Further properties of the program *)

From Stdlib Require DecimalPos DecimalZ.

(** ** Attribute lines as text *)

(** The value the dictionary ends up with for [key] when the pairs are
    stored in order. *)
Fixpoint last_value (key : string) (pairs : list (string * string))
  : option string :=
  match pairs with
  | [] => None
  | (k, v) :: rest =>
      match last_value key rest with
      | Some w => Some w
      | None => if String.eqb k key then Some v else None
      end
  end.

(** A string is empty or starts with a character that fails [p]. *)
Definition stops (p : ascii -> bool) (s : string) : Prop :=
  match s with
  | String c _ => p c = false
  | EmptyString => True
  end.

(** A key the pattern can match: a non-empty run of word characters; and
    a value: a non-empty run without white space and square brackets. *)
Definition is_key (k : string) : bool := negb (is_empty k) && all_chars is_word k.

Definition is_value (v : string) : bool :=
  negb (is_empty v) && all_chars is_value_char v.

(** An attribute the way the camera writes it, [[key: value]] and a
    blank, and a line of them. *)
Definition render_attribute (kv : string * string) : string :=
  "[" +:+ fst kv +:+ ": " +:+ snd kv +:+ "] ".

Fixpoint render_attributes (pairs : list (string * string)) : string :=
  match pairs with
  | [] => EmptyString
  | kv :: rest => render_attribute kv +:+ render_attributes rest
  end.

(** ** Failures of the reader *)

(** The text stored for [key] on the line is no float literal. *)
Definition not_numeric (line key : string) : Prop :=
  exists v : string,
    read_line_attributes line !! key = Some v
    /\ float_of_str v = Raise ValueError.

(** The conversion of [key] is the first step to fail on a line: the keys
    read before it are there with numeric values and, past the position
    test, the position is not the sentinel. *)
Inductive first_invalid (line : string) : string -> Prop :=
| invalid_latitude :
    not_numeric line "latitude" ->
    first_invalid line "latitude"
| invalid_longitude :
    is_Some (attr_float line "latitude") ->
    not_numeric line "longitude" ->
    first_invalid line "longitude"
| invalid_abs_alt :
    is_Some (attr_float line "latitude") ->
    is_Some (attr_float line "longitude") ->
    is_sentinel line = false ->
    not_numeric line "abs_alt" ->
    first_invalid line "abs_alt"
| invalid_focal_len :
    is_Some (attr_float line "latitude") ->
    is_Some (attr_float line "longitude") ->
    is_sentinel line = false ->
    is_Some (attr_float line "abs_alt") ->
    not_numeric line "focal_len" ->
    first_invalid line "focal_len".

(** The ways one pass through the loop body ends. *)
Inductive pass_result (result : list ImageData) (line : string)
    (count inc_frames : Z) : outcome (list ImageData) -> Prop :=
| pass_zero :
    inc_frames = 0 ->
    pass_result result line count inc_frames (Raise ZeroDivisionError)
| pass_skip :
    inc_frames <> 0 -> passable inc_frames count line ->
    pass_result result line count inc_frames
      (Return (result ++ expected inc_frames count [line])%list)
| pass_missing (key : string) :
    inc_frames <> 0 -> aligned count inc_frames = true ->
    first_missing line key ->
    pass_result result line count inc_frames (Raise (KeyError key))
| pass_invalid (key : string) :
    inc_frames <> 0 -> aligned count inc_frames = true ->
    first_invalid line key ->
    pass_result result line count inc_frames (Raise ValueError).

(** ** Line terminators *)

(** The text of a file whose lines all end with [eol]. *)
Fixpoint join_lines (eol : string) (ls : list string) : string :=
  match ls with
  | [] => EmptyString
  | l :: rest => l +:+ eol +:+ join_lines eol rest
  end.

Definition CRLF : string := String CR (String LF EmptyString).
Definition CR_only : string := String CR EmptyString.

(** ** Sample data for the properties of the whole run *)

(** A frame whose latitude is not a number. *)
Definition garbled_block : block := {|
  ordinal := "2";
  time_range := "00:00:00,033 --> 00:00:00,066";
  frame_count := "FrameCnt: 2";
  date_time := "2024-01-01 10:00:00";
  attributes := "[latitude: n/a] [longitude: 2.5] [abs_alt: 3.0] [focal_len: 4.0]";
  separator := ""
|}.

(** [int(x)] in the words of arithmetic: the integer part of the value. *)
Definition Qtruncate (q : Q) : Z :=
  if Qle_bool 0 q then Qfloor q else Qceiling q.

(** The frames of [demo_block] under another ordinal, time and date. *)
Definition renumbered_block : block := {|
  ordinal := "7";
  time_range := "00:00:00,200 --> 00:00:00,233";
  frame_count := "FrameCnt: 7";
  date_time := "2024-02-02 12:00:00";
  attributes := demo_attributes;
  separator := ""
|}.

(** The double 29.97, a common frame rate. *)
Definition ntsc_rate : float := S754_finite false 8435805052018360 (-48).
(** ** Lemmas on reading *)

Lemma readlines_step (f : file) :
  readlines f =
  match f with
  | EmptyString => []
  | String _ _ => fst (readline f) :: readlines (snd (readline f))
  end.
Proof.
  induction f as [|c r IH]; [reflexivity|].
  cbn [readlines readline]. destruct (Ascii.eqb c LF); [reflexivity|].
  rewrite IH. destruct r as [|d r']; [reflexivity|].
  destruct (readline (String d r')) as [l f']. reflexivity.
Qed.

Lemma readline_nonempty (c : ascii) (r : string) :
  is_empty (fst (readline (String c r))) = false.
Proof.
  cbn [readline]. destruct (Ascii.eqb c LF); [reflexivity|].
  destruct (readline r). reflexivity.
Qed.

Lemma readlines_length (f : file) :
  (length (readlines f) <= String.length f)%nat.
Proof.
  induction f as [|c r IH]; cbn [readlines String.length length]; [lia|].
  destruct (Ascii.eqb c LF); cbn [length]; [lia|].
  destruct (readlines r); cbn [length] in *; lia.
Qed.

Lemma readlines_skip_lines (n : nat) (f : file) :
  readlines (skip_lines n f) = drop n (readlines f).
Proof.
  revert f. induction n as [|n IH]; intros f; [reflexivity|].
  cbn [skip_lines]. rewrite IH, (readlines_step f).
  destruct f; [cbn; by rewrite drop_nil|reflexivity].
Qed.

Lemma every_sixth_step (a : string) (r : list string) :
  every_sixth (a :: r) = a :: every_sixth (drop 5 r).
Proof.
  cbn [every_sixth]. f_equal.
  destruct r as [|? [|? [|? [|? [|? r']]]]]; reflexivity.
Qed.

Lemma get_meta_info_loop_scan (fuel : nat) (f : file) (inc_frames count : Z)
    (result : list ImageData) :
  (length (readlines f) < fuel)%nat ->
  get_meta_info_loop fuel f inc_frames count result
  = Some (scan inc_frames count result (every_sixth (readlines f))).
Proof.
  revert f count result.
  induction fuel as [|fuel IH]; intros f count result Hlen; [lia|].
  cbn [get_meta_info_loop]. rewrite (readlines_step f) in Hlen |- *.
  destruct f as [|c r]; [reflexivity|].
  pose proof (readline_nonempty c r) as Hne.
  destruct (readline (String c r)) as [next_line f1]. cbn [fst snd] in *.
  rewrite Hne, every_sixth_step. cbn [scan].
  destruct (loop_body result next_line count inc_frames); [|reflexivity].
  rewrite IH, readlines_skip_lines; [reflexivity|].
  rewrite readlines_skip_lines, length_drop. cbn [length] in Hlen. lia.
Qed.

(** The reader always terminates, and its result is the scan of the
    attribute lines. *)
Lemma get_meta_info_scan (content : string) (inc_frames : Z) :
  get_meta_info content inc_frames
  = Some (scan inc_frames 0 [] (attribute_lines content)).
Proof.
  unfold get_meta_info, attribute_lines.
  rewrite get_meta_info_loop_scan, readlines_skip_lines; [reflexivity|].
  pose proof (readlines_length (skip_lines 4 (open content))). lia.
Qed.

(** ** Lemmas on the loop body *)

Lemma float_item_attr_float (line key : string) (x : float) :
  attr_float line key = Some x ->
  float_item (read_line_attributes line) key = Return x.
Proof.
  unfold attr_float, float_item, getitem.
  destruct (read_line_attributes line !! key) as [v|]; [|discriminate].
  cbn. destruct (float_of_str v); [|discriminate]. congruence.
Qed.

Lemma float_item_missing (line key : string) :
  read_line_attributes line !! key = None ->
  float_item (read_line_attributes line) key = Raise (KeyError key).
Proof. unfold float_item, getitem. intros ->. reflexivity. Qed.

Lemma selected_unaligned (line : string) (count inc_frames : Z) :
  inc_frames <> 0 -> aligned count inc_frames = false ->
  selected (read_line_attributes line) count inc_frames = Return false.
Proof.
  unfold selected, int_mod, aligned. intros Hinc Hal.
  apply Z.eqb_neq in Hinc. rewrite Hinc. cbn. rewrite Hal. reflexivity.
Qed.

Lemma loop_body_unaligned (result : list ImageData) (line : string)
    (count inc_frames : Z) :
  inc_frames <> 0 -> aligned count inc_frames = false ->
  loop_body result line count inc_frames = Return result.
Proof.
  intros Hinc Hal. unfold loop_body.
  rewrite selected_unaligned by assumption. reflexivity.
Qed.

Lemma loop_body_sentinel (result : list ImageData) (line : string)
    (count inc_frames : Z) :
  inc_frames <> 0 -> is_sentinel line = true ->
  loop_body result line count inc_frames = Return result.
Proof.
  intros Hinc Hs.
  destruct (aligned count inc_frames) eqn:Hal;
    [|by apply loop_body_unaligned].
  unfold is_sentinel in Hs.
  destruct (attr_float line "latitude") as [la|] eqn:Hla; [|discriminate].
  destruct (attr_float line "longitude") as [lo|] eqn:Hlo; [|discriminate].
  apply andb_true_iff in Hs as [Hza Hzo].
  unfold loop_body, selected, int_mod. unfold aligned in Hal.
  apply Z.eqb_neq in Hinc. rewrite Hinc. cbn. rewrite Hal.
  rewrite (float_item_attr_float _ _ _ Hla). cbn. rewrite Hza. cbn.
  rewrite (float_item_attr_float _ _ _ Hlo). cbn. rewrite Hzo. reflexivity.
Qed.

Lemma loop_body_sample (result : list ImageData) (line : string)
    (count inc_frames : Z) (d : ImageData) :
  inc_frames <> 0 -> aligned count inc_frames = true ->
  is_sentinel line = false -> sample count line = Some d ->
  loop_body result line count inc_frames = Return (result ++ [d])%list.
Proof.
  intros Hinc Hal Hs Hd. unfold sample in Hd. unfold is_sentinel in Hs.
  destruct (attr_float line "latitude") as [la|] eqn:Hla; [|discriminate].
  destruct (attr_float line "longitude") as [lo|] eqn:Hlo; [|discriminate].
  destruct (attr_float line "abs_alt") as [al|] eqn:Hal'; [|discriminate].
  destruct (attr_float line "focal_len") as [fo|] eqn:Hfo; [|discriminate].
  cbn in Hd. injection Hd as <-.
  unfold loop_body, selected, new_image_data, int_mod. unfold aligned in Hal.
  apply Z.eqb_neq in Hinc. rewrite Hinc. cbn. rewrite Hal.
  rewrite (float_item_attr_float _ _ _ Hla), (float_item_attr_float _ _ _ Hlo),
    (float_item_attr_float _ _ _ Hal'), (float_item_attr_float _ _ _ Hfo).
  cbn. destruct (feqb la fzero); cbn; [|reflexivity].
  cbn in Hs. rewrite Hs. reflexivity.
Qed.

(** A run over passable lines raises nothing and returns the expected
    samples after those it started with. *)
Lemma scan_expected (inc_frames : Z) (lines : list string) (count : Z)
    (result : list ImageData) :
  inc_frames <> 0 ->
  (forall (i : nat) (l : string),
      lines !! i = Some l -> passable inc_frames (count + Z.of_nat i) l) ->
  scan inc_frames count result lines
  = Return (result ++ expected inc_frames count lines)%list.
Proof.
  intros Hinc. revert count result.
  induction lines as [|l rest IH]; intros count result Hpass.
  { cbn. by rewrite app_nil_r. }
  assert (Hrest : forall (i : nat) (l' : string), rest !! i = Some l' ->
            passable inc_frames (count + 1 + Z.of_nat i) l').
  { intros i l' Hi. specialize (Hpass (S i) l' Hi).
    by replace (count + 1 + Z.of_nat i) with (count + Z.of_nat (S i)) by lia. }
  specialize (Hpass O l eq_refl). rewrite Z.add_0_r in Hpass.
  cbn [scan expected].
  destruct (aligned count inc_frames) eqn:Hal.
  - destruct (is_sentinel l) eqn:Hs.
    + rewrite loop_body_sentinel by assumption.
      rewrite IH by assumption. by destruct (sample count l).
    + destruct Hpass as [?|[?|[d Hd]]]; [congruence..|].
      rewrite (loop_body_sample _ _ _ _ d) by assumption.
      rewrite IH, Hd by assumption. cbn. by rewrite <- app_assoc.
  - rewrite loop_body_unaligned by assumption.
    rewrite IH by assumption. by destruct (sample count l).
Qed.

(** ** Lemmas on the layout *)

Lemma translate_newlines_line (l rest : string) :
  is_plain l = true ->
  translate_newlines (l +:+ String LF rest)
  = l +:+ String LF (translate_newlines rest).
Proof.
  induction l as [|c r IH]; intros Hp; [reflexivity|].
  cbn [is_plain] in Hp. apply andb_true_iff in Hp as [Hc Hr].
  apply andb_true_iff in Hc as [_ Hcr]. apply negb_true_iff in Hcr.
  change (String c r +:+ String LF rest) with (String c (r +:+ String LF rest)).
  cbn [translate_newlines]. rewrite Hcr, IH by assumption. reflexivity.
Qed.

Lemma open_unlines (ls : list string) :
  Forall (fun l => is_plain l = true) ls -> open (unlines ls) = unlines ls.
Proof.
  unfold open. induction 1 as [|l rest Hl _ IH]; [reflexivity|].
  cbn [unlines]. rewrite translate_newlines_line, IH by assumption.
  reflexivity.
Qed.

Lemma readlines_line (l rest : string) :
  is_plain l = true ->
  readlines (l +:+ String LF rest)
  = (l +:+ String LF EmptyString) :: readlines rest.
Proof.
  induction l as [|c r IH]; intros Hp; [reflexivity|].
  cbn [is_plain] in Hp. apply andb_true_iff in Hp as [Hc Hr].
  apply andb_true_iff in Hc as [Hlf _]. apply negb_true_iff in Hlf.
  change (String c r +:+ String LF rest) with (String c (r +:+ String LF rest)).
  cbn [readlines]. rewrite Hlf, IH by assumption. reflexivity.
Qed.

Lemma readlines_unlines (ls : list string) :
  Forall (fun l => is_plain l = true) ls ->
  readlines (unlines ls) = map (fun l => l +:+ String LF EmptyString) ls.
Proof.
  induction 1 as [|l rest Hl _ IH]; [reflexivity|].
  cbn [unlines map]. rewrite readlines_line, IH by assumption. reflexivity.
Qed.

Lemma plain_blocks_lines (blocks : list block) :
  Forall plain_block blocks ->
  Forall (fun l => is_plain l = true) (concat (map block_lines blocks)).
Proof.
  induction 1 as [|b rest Hb _ IH]; [constructor|].
  cbn [map concat]. apply Forall_app. by split.
Qed.

(** In a log made of frames only, the reader visits the fifth line of
    every frame. *)
Lemma attribute_lines_srt_text (blocks : list block) :
  Forall plain_block blocks ->
  attribute_lines (srt_text blocks) = map attribute_line blocks.
Proof.
  intros Hp. unfold attribute_lines, srt_text.
  rewrite open_unlines, readlines_unlines by by apply plain_blocks_lines.
  clear Hp. induction blocks as [|b rest IH]; [reflexivity|].
  cbn [map concat block_lines app drop].
  rewrite every_sixth_step. cbn [drop]. by rewrite IH.
Qed.

(** ** Lemmas on the expected samples *)

Lemma sample_frame_num (count : Z) (line : string) (d : ImageData) :
  sample count line = Some d -> frame_num d = count.
Proof.
  unfold sample. intros H.
  destruct (attr_float line "latitude"), (attr_float line "longitude"),
    (attr_float line "abs_alt"), (attr_float line "focal_len");
    try discriminate.
  injection H as <-. reflexivity.
Qed.

Lemma elem_of_expected (inc_frames : Z) (lines : list string) (count : Z)
    (d : ImageData) :
  d ∈ expected inc_frames count lines <->
  exists (i : nat) (l : string),
    lines !! i = Some l
    /\ aligned (count + Z.of_nat i) inc_frames = true
    /\ is_sentinel l = false
    /\ sample (count + Z.of_nat i) l = Some d.
Proof.
  revert count. induction lines as [|l rest IH]; intros count.
  { cbn. split; [by intros ?%elem_of_nil|by intros (i & l & ? & _)]. }
  assert (Hshift : forall i : nat,
             count + 1 + Z.of_nat i = count + Z.of_nat (S i)) by (intros; lia).
  split.
  - intros Hd. cbn [expected] in Hd.
    assert (Hhere : forall d', sample count l = Some d' ->
              aligned count inc_frames && negb (is_sentinel l) = true ->
              d = d' ->
              exists (i : nat) (l0 : string),
                (l :: rest) !! i = Some l0
                /\ aligned (count + Z.of_nat i) inc_frames = true
                /\ is_sentinel l0 = false
                /\ sample (count + Z.of_nat i) l0 = Some d).
    { intros d' Hs Hb ->. apply andb_true_iff in Hb as [Ha Hn].
      apply negb_true_iff in Hn. exists O, l. cbn. rewrite Z.add_0_r. done. }
    assert (Hthere : d ∈ expected inc_frames (count + 1) rest ->
              exists (i : nat) (l0 : string),
                (l :: rest) !! i = Some l0
                /\ aligned (count + Z.of_nat i) inc_frames = true
                /\ is_sentinel l0 = false
                /\ sample (count + Z.of_nat i) l0 = Some d).
    { intros (i & l0 & Hi & Ha & Hn & Hs)%IH. exists (S i), l0.
      rewrite <- Hshift. done. }
    destruct (sample count l) as [d'|] eqn:Hs; [|by apply Hthere].
    destruct (aligned count inc_frames && negb (is_sentinel l)) eqn:Hb;
      [|by apply Hthere].
    apply elem_of_cons in Hd as [->|Hd]; [by apply (Hhere d')|by apply Hthere].
  - intros (i & l0 & Hi & Ha & Hn & Hs). cbn [expected].
    destruct i as [|i].
    + cbn in Hi. injection Hi as ->. rewrite Z.add_0_r in Ha, Hs.
      rewrite Hs, Ha, Hn. cbn. apply elem_of_cons. by left.
    + cbn in Hi. rewrite <- Hshift in Ha, Hs.
      assert (d ∈ expected inc_frames (count + 1) rest)
        by (apply IH; eauto 8).
      destruct (sample count l); [|done].
      destruct (aligned count inc_frames && negb (is_sentinel l)); [|done].
      apply elem_of_cons. by right.
Qed.

Lemma expected_frame_nums (inc_frames : Z) (lines : list string) (count : Z) :
  Forall (fun d => count <= frame_num d) (expected inc_frames count lines)
  /\ StronglySorted Z.lt (frame_num <$> expected inc_frames count lines).
Proof.
  revert count. induction lines as [|l rest IH]; intros count.
  { split; constructor. }
  destruct (IH (count + 1)) as [Hlow Hsorted]. cbn [expected].
  assert (Hlow' : Forall (fun d => count <= frame_num d)
                    (expected inc_frames (count + 1) rest)).
  { eapply Forall_impl; [exact Hlow|]. cbn. intros; lia. }
  destruct (sample count l) as [d|] eqn:Hs; [|done].
  destruct (aligned count inc_frames && negb (is_sentinel l)); [|done].
  apply sample_frame_num in Hs. split.
  - constructor; [lia|done].
  - cbn. constructor; [done|]. rewrite Forall_fmap.
    eapply Forall_impl; [exact Hlow|]. cbn. intros; lia.
Qed.

(** ** The telemetry log reader *)

(** C1, as the specification lays the file out: with four header lines
    before the first six-line frame the reader takes the first line of
    each frame for its attribute line, and a frame that qualifies is not
    sampled: the run stops on the missing latitude. *)
Lemma C1_header_layout_counterexample :
  ~ reads_as_specified demo_header [demo_block] 1.
Proof. unfold reads_as_specified. vm_compute. discriminate. Qed.

Lemma header_layout_raises :
  get_meta_info (srt_text_with_header demo_header [demo_block]) 1
  = Some (Raise (KeyError "latitude")).
Proof. vm_compute. reflexivity. Qed.

(** C1, amended: in a log made of six-line frames with the attributes on
    the fifth line and nothing before the first frame (the four lines the
    reader skips are the first four lines of the first frame), with a
    nonzero increment and the four required attributes present and
    numeric in every frame whose counter is a multiple of the increment,
    the reader returns one sample exactly for the frames whose counter is
    a multiple of the increment and whose position is not (0.0, 0.0), in
    ascending order of frame number. *)
Theorem C1_reader_samples_qualifying_frames (blocks : list block)
    (inc_frames : Z) :
  inc_frames <> 0 ->
  Forall plain_block blocks ->
  (forall (i : nat) (b : block),
      blocks !! i = Some b -> aligned (Z.of_nat i) inc_frames = true ->
      is_Some (sample (Z.of_nat i) (attribute_line b))) ->
  exists samples : list ImageData,
    get_meta_info (srt_text blocks) inc_frames = Some (Return samples)
    /\ StronglySorted Z.lt (frame_num <$> samples)
    /\ forall d : ImageData,
         d ∈ samples <->
         exists (i : nat) (b : block),
           blocks !! i = Some b
           /\ aligned (Z.of_nat i) inc_frames = true
           /\ is_sentinel (attribute_line b) = false
           /\ sample (Z.of_nat i) (attribute_line b) = Some d.
Proof.
  intros Hinc Hplain Hcomplete.
  exists (expected inc_frames 0 (map attribute_line blocks)).
  split; [|split].
  - rewrite get_meta_info_scan, attribute_lines_srt_text by assumption.
    rewrite scan_expected; [reflexivity|assumption|].
    intros i l Hi. rewrite list_lookup_fmap in Hi.
    destruct (blocks !! i) as [b|] eqn:Hb; [|discriminate].
    injection Hi as <-. rewrite Z.add_0_l. unfold passable.
    destruct (aligned (Z.of_nat i) inc_frames) eqn:Ha; [|by left].
    right; right. by apply (Hcomplete i b).
  - apply expected_frame_nums.
  - intros d. rewrite elem_of_expected. split.
    + intros (i & l & Hi & Ha & Hn & Hs). rewrite list_lookup_fmap in Hi.
      destruct (blocks !! i) as [b|] eqn:Hb; [|discriminate].
      injection Hi as <-. rewrite Z.add_0_l in Ha, Hs. by exists i, b.
    + intros (i & b & Hb & Ha & Hn & Hs). exists i, (attribute_line b).
      rewrite list_lookup_fmap, Hb, Z.add_0_l. done.
Qed.

(** C10: lookups happen only as far as the tests reach.  When every
    attribute line the reader visits is skipped by the increment, or
    reports (0.0, 0.0), or is complete, the run raises nothing: a line of
    the first kind may lack every key, one of the second kind may lack
    [abs_alt] and [focal_len]. *)
Theorem C10_lookups_are_lazy (content : string) (inc_frames : Z) :
  inc_frames <> 0 ->
  (forall (i : nat) (l : string),
      attribute_lines content !! i = Some l ->
      aligned (Z.of_nat i) inc_frames = false
      \/ is_sentinel l = true
      \/ is_Some (sample (Z.of_nat i) l)) ->
  get_meta_info content inc_frames
  = Some (Return (expected inc_frames 0 (attribute_lines content))).
Proof.
  intros Hinc Hpass. rewrite get_meta_info_scan.
  rewrite scan_expected; [reflexivity|assumption|].
  intros i l Hi. rewrite Z.add_0_l. by apply Hpass.
Qed.

(** With increment 0 the first attribute line stops the run, and a log
    without one is read to its end. *)
Lemma get_meta_info_zero_increment (content : string) :
  get_meta_info content 0
  = if (4 <? length (readlines (open content)))%nat
    then Some (Raise ZeroDivisionError) else Some (Return []).
Proof.
  rewrite get_meta_info_scan. unfold attribute_lines.
  destruct (4 <? length (readlines (open content)))%nat eqn:Hlen.
  - apply Nat.ltb_lt in Hlen.
    destruct (drop 4 (readlines (open content))) as [|l rest] eqn:Hd.
    + apply (f_equal length) in Hd. rewrite length_drop in Hd.
      cbn in Hd. lia.
    + rewrite every_sixth_step. reflexivity.
  - apply Nat.ltb_ge in Hlen. rewrite drop_ge by assumption. reflexivity.
Qed.

(** An interval of 0 on the command line reaches the reader: [main]
    computes increment 0 for any finite frame rate and the run stops at
    the first modulus test. *)
Lemma main_zero_interval (content mp4_path : string) (framerate : float) :
  is_finite framerate = true ->
  (4 < length (readlines (open content)))%nat ->
  main content mp4_path framerate (Int 0) = Some (Raise ZeroDivisionError).
Proof.
  intros Hfin Hlen. unfold main.
  assert (calculate_frame_increment (Int 0) framerate = Return 0) as ->.
  { by destruct framerate as [s| | |s m e]. }
  rewrite get_meta_info_zero_increment.
  by apply Nat.ltb_lt in Hlen as ->.
Qed.

(** C9: with increment 0 the run stops at the modulus test of the first
    attribute line, whatever that line holds; nothing rejects the
    increment earlier, and a log that ends within its first four lines is
    read without error. *)
Theorem C9_zero_increment_raises (content : string) :
  ((4 < length (readlines (open content)))%nat ->
   get_meta_info content 0 = Some (Raise ZeroDivisionError))
  /\ ((length (readlines (open content)) <= 4)%nat ->
      get_meta_info content 0 = Some (Return [])).
Proof.
  rewrite get_meta_info_zero_increment. split; intros Hlen.
  - by apply Nat.ltb_lt in Hlen as ->.
  - by apply Nat.ltb_ge in Hlen as ->.
Qed.

Lemma float_item_Return (line key : string) (x : float) :
  float_item (read_line_attributes line) key = Return x <->
  attr_float line key = Some x.
Proof.
  split; [|apply float_item_attr_float].
  unfold attr_float, float_item, getitem.
  destruct (read_line_attributes line !! key) as [v|]; [|discriminate].
  cbn. destruct (float_of_str v); [|discriminate]. congruence.
Qed.

(** What a pass through the loop body can do to the list of samples. *)
Lemma loop_body_inv (result : list ImageData) (line : string)
    (count inc_frames : Z) (result' : list ImageData) :
  loop_body result line count inc_frames = Return result' ->
  result' = result
  \/ exists d : ImageData,
       result' = (result ++ [d])%list
       /\ aligned count inc_frames = true
       /\ is_sentinel line = false
       /\ sample count line = Some d.
Proof.
  unfold loop_body, selected, int_mod, new_image_data, aligned.
  destruct (inc_frames =? 0); [discriminate|]. cbn.
  destruct (count mod inc_frames =? 0); cbn; [|left; congruence].
  destruct (float_item (read_line_attributes line) "latitude")
    as [la|] eqn:Hla; [|discriminate].
  destruct (float_item (read_line_attributes line) "longitude")
    as [lo|] eqn:Hlo.
  2:{ cbn. destruct (feqb la fzero); discriminate. }
  apply float_item_Return in Hla, Hlo.
  assert (Hsent : is_sentinel line = feqb la fzero && feqb lo fzero)
    by (unfold is_sentinel; by rewrite Hla, Hlo).
  assert (Hbuild : forall r,
    (al ← float_item (read_line_attributes line) "abs_alt";
     fo ← float_item (read_line_attributes line) "focal_len";
     Return {| lat := la; long := lo; abs_alt := al; focal_len := fo;
               frame_num := count |}) ≫= (fun d => Return (result ++ [d])%list)
    = Return r ->
    exists d, r = (result ++ [d])%list /\ sample count line = Some d).
  { intros r.
    destruct (float_item (read_line_attributes line) "abs_alt")
      as [al|] eqn:Hal; [|discriminate].
    destruct (float_item (read_line_attributes line) "focal_len")
      as [fo|] eqn:Hfo; [|discriminate].
    apply float_item_Return in Hal, Hfo. cbn. intros [= <-].
    eexists. split; [reflexivity|]. unfold sample.
    by rewrite Hla, Hlo, Hal, Hfo. }
  cbn. destruct (feqb la fzero) eqn:Hza; cbn.
  - destruct (feqb lo fzero) eqn:Hzo; cbn; [left; congruence|].
    intros (d & -> & Hd)%Hbuild. right. exists d. by rewrite Hsent.
  - intros (d & -> & Hd)%Hbuild. right. exists d. by rewrite Hsent.
Qed.

Lemma scan_inv (inc_frames : Z) (lines : list string) (count : Z)
    (result samples : list ImageData) :
  scan inc_frames count result lines = Return samples ->
  exists new : list ImageData,
    samples = (result ++ new)%list
    /\ forall d : ImageData, d ∈ new ->
         exists (i : nat) (l : string),
           lines !! i = Some l
           /\ aligned (count + Z.of_nat i) inc_frames = true
           /\ is_sentinel l = false
           /\ sample (count + Z.of_nat i) l = Some d.
Proof.
  revert count result. induction lines as [|l rest IH]; intros count result.
  { cbn. intros [= <-]. exists []. split; [by rewrite app_nil_r|].
    by intros d ?%elem_of_nil. }
  cbn [scan].
  destruct (loop_body result l count inc_frames) as [r|] eqn:Hbody;
    [|discriminate].
  intros (new & -> & Hnew)%IH.
  assert (Hlater : forall d, d ∈ new ->
            exists (i : nat) (l0 : string),
              (l :: rest) !! i = Some l0
              /\ aligned (count + Z.of_nat i) inc_frames = true
              /\ is_sentinel l0 = false
              /\ sample (count + Z.of_nat i) l0 = Some d).
  { intros d (i & l0 & Hi & Ha & Hn & Hs)%Hnew. exists (S i), l0.
    replace (count + Z.of_nat (S i)) with (count + 1 + Z.of_nat i) by lia.
    done. }
  apply loop_body_inv in Hbody as [->|(d0 & -> & Ha & Hn & Hs)].
  - by exists new.
  - exists (d0 :: new). split; [by rewrite <- app_assoc|].
    intros d [->|Hd]%elem_of_cons; [|by apply Hlater].
    exists O, l. rewrite Z.add_0_r. done.
Qed.

Lemma sample_not_origin (count : Z) (line : string) (d : ImageData) :
  sample count line = Some d -> is_sentinel line = false ->
  feqb (lat d) fzero && feqb (long d) fzero = false.
Proof.
  unfold sample, is_sentinel.
  destruct (attr_float line "latitude"), (attr_float line "longitude"),
    (attr_float line "abs_alt"), (attr_float line "focal_len");
    try discriminate.
  by intros [= <-].
Qed.

(** C2: whatever the log and the increment, no returned sample comes from
    an attribute line that reports latitude and longitude both 0.0, be
    its counter a multiple of the increment or not, and no returned
    sample carries that position. *)
Theorem C2_sentinel_never_sampled (content : string) (inc_frames : Z)
    (samples : list ImageData) :
  get_meta_info content inc_frames = Some (Return samples) ->
  (forall (i : nat) (l : string),
      attribute_lines content !! i = Some l -> is_sentinel l = true ->
      Z.of_nat i ∉ frame_num <$> samples)
  /\ (forall d : ImageData,
        d ∈ samples -> feqb (lat d) fzero && feqb (long d) fzero = false).
Proof.
  rewrite get_meta_info_scan. intros [= Hscan].
  apply scan_inv in Hscan as (new & -> & Hnew). cbn [app]. split.
  - intros i l Hi Hsent (d & Hnum & Hd)%list_elem_of_fmap.
    apply Hnew in Hd as (j & l' & Hj & _ & Hn & Hs).
    apply sample_frame_num in Hs. rewrite Z.add_0_l in Hs.
    assert (j = i) as -> by lia. congruence.
  - intros d (j & l' & _ & _ & Hn & Hs)%Hnew.
    by apply (sample_not_origin _ l' d Hs).
Qed.

Lemma scan_app (inc_frames : Z) (l1 l2 : list string) (count : Z)
    (result : list ImageData) :
  scan inc_frames count result (l1 ++ l2)
  = match scan inc_frames count result l1 with
    | Return r => scan inc_frames (count + Z.of_nat (length l1)) r l2
    | Raise e => Raise e
    end.
Proof.
  revert count result. induction l1 as [|l rest IH]; intros count result.
  { cbn. by rewrite Z.add_0_r. }
  cbn [app scan]. destruct (loop_body result l count inc_frames); [|done].
  rewrite IH. cbn [length].
  by replace (count + 1 + Z.of_nat (length rest))
    with (count + Z.of_nat (S (length rest))) by lia.
Qed.

Lemma selected_not_sentinel (line : string) (count inc_frames : Z)
    (la lo : float) :
  inc_frames <> 0 -> aligned count inc_frames = true ->
  attr_float line "latitude" = Some la ->
  attr_float line "longitude" = Some lo ->
  is_sentinel line = false ->
  selected (read_line_attributes line) count inc_frames = Return true.
Proof.
  intros Hinc Ha Hla Hlo Hn. unfold selected, int_mod.
  apply Z.eqb_neq in Hinc. rewrite Hinc. cbn. unfold aligned in Ha.
  rewrite Ha, (float_item_attr_float _ _ _ Hla). cbn.
  unfold is_sentinel in Hn. rewrite Hla, Hlo in Hn.
  destruct (feqb la fzero); cbn; [|reflexivity].
  rewrite (float_item_attr_float _ _ _ Hlo). cbn. cbn in Hn. by rewrite Hn.
Qed.

Lemma loop_body_first_missing (result : list ImageData) (line key : string)
    (count inc_frames : Z) :
  inc_frames <> 0 -> aligned count inc_frames = true ->
  first_missing line key ->
  loop_body result line count inc_frames = Raise (KeyError key).
Proof.
  intros Hinc Ha Hmiss. pose proof Hinc as Hinc'%Z.eqb_neq.
  pose proof Ha as Ha'. unfold aligned in Ha'.
  destruct Hmiss as [Hk|[la Hla] Hk|[la Hla] [lo Hlo] Hn Hk
                    |[la Hla] [lo Hlo] Hn [al Hal] Hk].
  - unfold loop_body, selected, int_mod. rewrite Hinc'. cbn. rewrite Ha'.
    by rewrite (float_item_missing _ _ Hk).
  - unfold loop_body, selected, new_image_data, int_mod.
    rewrite Hinc'. cbn. rewrite Ha'.
    rewrite (float_item_attr_float _ _ _ Hla), (float_item_missing _ _ Hk).
    cbn. by destruct (feqb la fzero).
  - unfold loop_body.
    rewrite (selected_not_sentinel _ _ _ la lo) by assumption.
    unfold new_image_data.
    rewrite (float_item_attr_float _ _ _ Hla),
      (float_item_attr_float _ _ _ Hlo), (float_item_missing _ _ Hk).
    reflexivity.
  - unfold loop_body.
    rewrite (selected_not_sentinel _ _ _ la lo) by assumption.
    unfold new_image_data.
    rewrite (float_item_attr_float _ _ _ Hla),
      (float_item_attr_float _ _ _ Hlo), (float_item_attr_float _ _ _ Hal),
      (float_item_missing _ _ Hk).
    reflexivity.
Qed.

(** C5, as stated: a frame whose counter is a multiple of the increment
    and that lacks [abs_alt] and [focal_len] does not stop the run when it
    reports (0.0, 0.0); it is passed over. *)
Lemma C5_sentinel_frame_counterexample :
  ~ aborts_on_missing_key (srt_text [sentinel_block]) 1.
Proof.
  unfold aborts_on_missing_key. intros Habort.
  destruct Habort as [key Hkey]; [|vm_compute in Hkey; discriminate].
  exists O, (attribute_line sentinel_block), "abs_alt".
  split; [vm_compute; reflexivity|].
  split; [vm_compute; reflexivity|].
  split; [unfold required_keys; set_solver|].
  vm_compute. reflexivity.
Qed.

(** C5, amended: when no earlier frame has stopped the run, a frame whose
    counter is a multiple of the nonzero increment and on which the
    lookup of a required key is the first to fail (the keys read before
    it, in the order latitude, longitude, abs_alt, focal_len, are present
    and numeric, and for abs_alt and focal_len the position is not
    (0.0, 0.0)) stops the whole run with the lookup failure of that key:
    the frame is not skipped. *)
Theorem C5_missing_key_stops_the_run (content : string) (inc_frames : Z)
    (i : nat) (line key : string) :
  inc_frames <> 0 ->
  attribute_lines content !! i = Some line ->
  (forall (j : nat) (l : string),
      (j < i)%nat -> attribute_lines content !! j = Some l ->
      aligned (Z.of_nat j) inc_frames = false
      \/ is_sentinel l = true
      \/ is_Some (sample (Z.of_nat j) l)) ->
  aligned (Z.of_nat i) inc_frames = true ->
  first_missing line key ->
  get_meta_info content inc_frames = Some (Raise (KeyError key)).
Proof.
  intros Hinc Hi Hearlier Ha Hmiss. rewrite get_meta_info_scan.
  rewrite <- (take_drop_middle _ _ _ Hi), scan_app.
  rewrite scan_expected; [|assumption|].
  - cbn [scan]. rewrite Z.add_0_l, length_take_le
      by (apply Nat.lt_le_incl; by eapply lookup_lt_Some).
    by rewrite (loop_body_first_missing _ _ key).
  - intros j l Hj. rewrite Z.add_0_l.
    apply lookup_take_Some in Hj as [Hj Hlt]. by apply Hearlier.
Qed.

(** ** The exported files *)

Lemma string_app_cons (c : ascii) (a b : string) :
  String c a +:+ b = String c (a +:+ b).
Proof. reflexivity. Qed.

Lemma string_app_nil_l (a : string) : EmptyString +:+ a = a.
Proof. reflexivity. Qed.

Lemma string_app_nil_r (a : string) : a +:+ EmptyString = a.
Proof.
  induction a as [|c r IH]; [reflexivity|].
  by rewrite string_app_cons, IH.
Qed.

Lemma string_app_assoc (a b c : string) :
  (a +:+ b) +:+ c = a +:+ (b +:+ c).
Proof.
  induction a as [|x r IH]; [reflexivity|].
  by rewrite !string_app_cons, IH.
Qed.

Lemma split_nonempty (sep : ascii) (s : string) : split sep s <> [].
Proof.
  destruct s as [|c r]; cbn [split]; [done|].
  destruct (Ascii.eqb c sep); [done|]. by destruct (split sep r).
Qed.

Lemma split_no_sep (sep : ascii) (s : string) :
  contains sep s = false -> split sep s = [s].
Proof.
  induction s as [|c r IH]; [done|]. cbn [contains split].
  intros [Hc Hr]%orb_false_iff. rewrite Hc, IH by assumption. reflexivity.
Qed.

Lemma split_app_sep (sep : ascii) (d x : string) :
  split sep (d +:+ String sep x) = (split sep d ++ split sep x)%list.
Proof.
  induction d as [|c r IH].
  - change (EmptyString +:+ String sep x) with (String sep x).
    cbn [split app]. by rewrite Ascii.eqb_refl.
  - change (String c r +:+ String sep x) with (String c (r +:+ String sep x)).
    cbn [split]. rewrite IH. destruct (Ascii.eqb c sep); [reflexivity|].
    pose proof (split_nonempty sep r). by destruct (split sep r).
Qed.

Lemma last_item_split (dir name : string) :
  dir = EmptyString \/ (exists d, dir = d +:+ "/") ->
  contains "/" name = false ->
  last_item (split "/" (dir +:+ name)) = Return name.
Proof.
  intros [->|[d ->]] Hname; unfold last_item.
  - change (EmptyString +:+ name) with name. by rewrite split_no_sep.
  - rewrite string_app_assoc.
    change ("/" +:+ name) with (String "/" name).
    rewrite split_app_sep, (split_no_sep _ name), last_snoc by assumption.
    reflexivity.
Qed.

Lemma first_item_split (stem rest : string) :
  contains "." stem = false ->
  rest = EmptyString \/ (exists r, rest = String "." r) ->
  first_item (split "." (stem +:+ rest)) = Return stem.
Proof.
  intros Hstem [->|[r ->]]; unfold first_item.
  - by rewrite string_app_nil_r, split_no_sep.
  - by rewrite split_app_sep, (split_no_sep _ stem).
Qed.

Lemma contains_app (ch : ascii) (a b : string) :
  contains ch (a +:+ b) = contains ch a || contains ch b.
Proof.
  induction a as [|c r IH]; [reflexivity|].
  change (String c r +:+ b) with (String c (r +:+ b)). cbn [contains].
  by rewrite IH, orb_assoc.
Qed.

Lemma float_divmod_returns (vx wx : float) :
  feqb wx fzero = false ->
  exists q r : float, float_divmod vx wx = Return (q, r).
Proof.
  intros Hw. unfold float_divmod. rewrite Hw.
  destruct (if truthy (ffmod vx wx) then _ else _) as [mod1 div1].
  eauto.
Qed.

(** The converter raises nothing, whatever the float it is given. *)
Lemma decimal_degrees_to_minutes_seconds_returns (decimal : float) :
  exists t : float * float * float,
    decimal_degrees_to_minutes_seconds decimal = Return t.
Proof.
  unfold decimal_degrees_to_minutes_seconds.
  change (float_of_int 3600) with (Return (round_Z 3600)).
  change (float_of_int 60) with (Return (round_Z 60)). cbn [mbind outcome_bind].
  destruct (float_divmod_returns (fmul (fabs decimal) (round_Z 3600))
              (round_Z 60) eq_refl) as (mnt & sec & ->).
  cbn [mbind outcome_bind].
  destruct (float_divmod_returns mnt (round_Z 60) eq_refl) as (deg & mnt' & ->).
  cbn [mbind outcome_bind]. eauto.
Qed.

Lemma exif_fields_returns (frame : ImageData) :
  exists la lo : float * float * float,
    decimal_degrees_to_minutes_seconds (lat frame) = Return la
    /\ decimal_degrees_to_minutes_seconds (long frame) = Return lo
    /\ exif_fields frame = Return {|
         gps_latitude := la;
         gps_latitude_ref := if fltb fzero (lat frame) then "N" else "S";
         gps_longitude := lo;
         gps_longitude_ref := if fltb fzero (long frame) then "E" else "W";
         gps_altitude := fabs (abs_alt frame);
         gps_altitude_ref := if fltb fzero (abs_alt frame)
                             then ABOVE_SEA_LEVEL else BELOW_SEA_LEVEL;
         focal_length := focal_len frame |}.
Proof.
  destruct (decimal_degrees_to_minutes_seconds_returns (lat frame)) as [la Hla].
  destruct (decimal_degrees_to_minutes_seconds_returns (long frame)) as [lo Hlo].
  exists la, lo. unfold exif_fields. rewrite Hla, Hlo. done.
Qed.


Lemma export_frames_names (prefix : string) (frames : list ImageData) :
  exists written : list (string * ExifFields),
    export_frames prefix frames = Return written
    /\ written.*1 = saved_name prefix <$> frames.
Proof.
  induction frames as [|frame rest (written & Hw & Hnames)].
  { by exists []. }
  destruct (exif_fields_returns frame) as (la & lo & _ & _ & Hf).
  cbn [export_frames]. rewrite Hf, Hw. cbn [mbind outcome_bind].
  eexists. split; [reflexivity|]. cbn. by rewrite Hnames.
Qed.

Lemma out_prefix_returns (video_path : string) :
  exists stem : string,
    out_prefix video_path = Return (OUTPUT_DIR +:+ stem +:+ "_").
Proof.
  unfold out_prefix, last_item, first_item.
  destruct (last (split "/" video_path)) as [name|] eqn:Hlast.
  2:{ apply last_None in Hlast. by apply split_nonempty in Hlast. }
  cbn [mbind outcome_bind].
  destruct (split "." name) as [|stem rest] eqn:Hsplit.
  { by apply split_nonempty in Hsplit. }
  by exists stem.
Qed.

Lemma export_frames_fields (prefix : string) (frames : list ImageData) :
  exists written : list (string * ExifFields),
    export_frames prefix frames = Return written
    /\ written.*1 = saved_name prefix <$> frames
    /\ Forall2 (fun frame w => exif_fields frame = Return (snd w))
         frames written.
Proof.
  induction frames as [|frame rest (written & Hw & Hnames & Hfields)].
  { exists []. split; [done|]. split; [done|constructor]. }
  destruct (exif_fields_returns frame) as (la & lo & _ & _ & Hf).
  cbn [export_frames]. rewrite Hf, Hw. cbn [mbind outcome_bind].
  eexists. split; [reflexivity|]. split.
  - cbn. by rewrite Hnames.
  - constructor; [by rewrite Hf|done].
Qed.



(** C7, as stated: a base name with more than one dot loses everything
    from its first dot on, not only its extension. *)
Lemma C7_two_dots_counterexample :
  ~ names_as_specified "a/b/my.clip.mp4" frame_42.
Proof. unfold names_as_specified. vm_compute. discriminate. Qed.

(** C7, amended: the name of an exported file is the output directory
    prefix, the base file name of the video cut at its first dot (the
    name without its extension when it holds a single dot), an
    underscore, the frame number in decimal and [.jpg]; so
    [a/b/clip.mp4] and frame 42 give [clip_42.jpg] under the output
    directory. *)
Theorem C7_exported_file_names (dir stem rest : string)
    (frames : list ImageData) :
  dir = EmptyString \/ (exists d, dir = d +:+ "/") ->
  contains "/" stem = false -> contains "." stem = false ->
  contains "/" rest = false ->
  rest = EmptyString \/ (exists r, rest = String "." r) ->
  exists written : list (string * ExifFields),
    save_images frames (dir +:+ stem +:+ rest) = Return written
    /\ written.*1
       = (fun frame =>
            OUTPUT_DIR +:+ stem +:+ "_" +:+ str (frame_num frame) +:+ ".jpg")
         <$> frames.
Proof.
  intros Hdir Hstem Hdot Hrest Hext.
  unfold save_images, out_prefix.
  rewrite last_item_split; [|assumption|by rewrite contains_app, Hstem, Hrest].
  cbn [mbind outcome_bind]. rewrite first_item_split by assumption.
  cbn [mbind outcome_bind].
  destruct (export_frames_names (OUTPUT_DIR +:+ stem +:+ "_") frames)
    as (written & -> & Hnames).
  exists written. split; [reflexivity|]. rewrite Hnames.
  apply list_fmap_ext. intros _ frame _. unfold saved_name.
  by rewrite !string_app_assoc.
Qed.

(** ** The interval argument *)


















(** ** The frame increment *)

Lemma Qpower_two (e : Z) :
  0 <= e -> ((2 # 1) ^ e == inject_Z (2 ^ e))%Q.
Proof. intros He. by rewrite Zpower_Qpower. Qed.

Lemma Qfloor_dyadic (m : positive) (e : Z) :
  Qfloor (inject_Z (Zpos m) * (2 # 1) ^ e)
  = if 0 <=? e then Z.shiftl (Zpos m) e else Z.shiftr (Zpos m) (- e).
Proof.
  destruct (0 <=? e) eqn:He.
  - apply Z.leb_le in He.
    rewrite Qpower_two, <- inject_Z_mult, Qfloor_Z by assumption.
    by rewrite Z.shiftl_mul_pow2.
  - apply Z.leb_gt in He.
    replace e with (- - e) at 1 by lia.
    rewrite Qpower_opp, Qpower_two by lia.
    change (inject_Z (Z.pos m) * / inject_Z (2 ^ (- e)))%Q
      with (inject_Z (Z.pos m) / inject_Z (2 ^ (- e)))%Q.
    rewrite <- Zdiv_Qdiv, Z.shiftr_div_pow2 by lia. reflexivity.
Qed.

Lemma Qvalue_positive (m : positive) (e : Z) :
  (0 < Qvalue (S754_finite false m e))%Q.
Proof.
  cbn [Qvalue cond_Zopp].
  apply Qmult_lt_0_compat; [reflexivity|]. by apply Qpower_0_lt.
Qed.

Lemma Qvalue_opp (m : positive) (e : Z) :
  (Qvalue (S754_finite true m e) == - Qvalue (S754_finite false m e))%Q.
Proof.
  cbn [Qvalue cond_Zopp]. change (Z.neg m) with (- Z.pos m).
  rewrite inject_Z_opp. ring.
Qed.

Lemma int_of_float_finite (s : bool) (m : positive) (e : Z) :
  int_of_float (S754_finite s m e)
  = Return (cond_Zopp s (Qfloor (Qvalue (S754_finite false m e)))).
Proof. cbn [int_of_float Qvalue cond_Zopp]. by rewrite Qfloor_dyadic. Qed.

(** C3, as stated: nothing clamps the increment to 1.  A video of one
    frame every two seconds sampled every second gets increment 0. *)
Lemma C3_no_clamp_counterexample :
  ~ increment_as_specified (Int 1) half_fps.
Proof.
  intros H. specialize (H (round_Z 1) eq_refl).
  vm_compute in H. discriminate.
Qed.

(** C3, amended: when the product [framerate * seconds] is finite the
    calculator returns it truncated toward zero, which is its floor when
    it is not negative; there is no clamp to 1, and the increment is
    strictly positive exactly when the product is at least 1. *)
Theorem C3_increment_is_truncated_product (seconds : number)
    (framerate s : float) :
  to_float seconds = Return s ->
  is_finite (fmul framerate s) = true ->
  exists n : Z,
    calculate_frame_increment seconds framerate = Return n
    /\ ((0 <= Qvalue (fmul framerate s))%Q ->
        n = Qfloor (Qvalue (fmul framerate s)))
    /\ ((Qvalue (fmul framerate s) <= 0)%Q ->
        n = Qceiling (Qvalue (fmul framerate s)))
    /\ (0 < n <-> (1 <= Qvalue (fmul framerate s))%Q).
Proof.
  intros Hs Hfin. unfold calculate_frame_increment. rewrite Hs.
  cbn [mbind outcome_bind].
  destruct (fmul framerate s) as [z| | |sg m e]; try discriminate.
  { exists 0. cbn. repeat split; try done. }
  rewrite int_of_float_finite. eexists. split; [reflexivity|].
  pose proof (Qvalue_positive m e) as Hpos.
  pose proof (Qfloor_le (Qvalue (S754_finite false m e))) as Hfl.
  pose proof (Qlt_floor (Qvalue (S754_finite false m e))) as Hlt.
  assert (Hnn : 0 <= Qfloor (Qvalue (S754_finite false m e))).
  { rewrite <- (Qfloor_Z 0). apply Qfloor_resp_le. by apply Qlt_le_weak. }
  destruct sg; cbn [cond_Zopp].
  - pose proof (Qvalue_opp m e) as Hopp.
    split; [|split; [|split]].
    + intros Hge. rewrite Hopp in Hge.
      exfalso. apply (Qlt_irrefl 0).
      eapply Qlt_le_trans; [exact Hpos|].
      apply Qopp_le_compat in Hge.
      by rewrite Qopp_involutive in Hge.
    + intros _. unfold Qceiling. f_equal. apply Qfloor_comp.
      rewrite Hopp. by rewrite Qopp_involutive.
    + lia.
    + intros Hone. exfalso. rewrite Hopp in Hone.
      apply (Qlt_irrefl 0). eapply Qlt_le_trans; [exact Hpos|].
      apply Qopp_le_compat in Hone. rewrite Qopp_involutive in Hone.
      eapply Qle_trans; [exact Hone|]. done.
  - split; [done|]. split; [|split].
    + intros Hle. exfalso. apply (Qlt_irrefl 0).
      by eapply Qlt_le_trans.
    + intros Hn. eapply Qle_trans; [|exact Hfl].
      change 1%Q with (inject_Z 1). rewrite <- Zle_Qle. lia.
    + intros Hone. apply Qfloor_resp_le in Hone.
      change (Qfloor 1) with 1 in Hone. lia.
Qed.

(** ** The geodetic converter: mantissas and exponents *)

Lemma fexp_fexp64 (k : Z) : SpecFloat.fexp prec emax k = fexp64 k.
Proof. reflexivity. Qed.

Lemma digits_spec (m : positive) :
  2 ^ (digits m - 1) <= Zpos m < 2 ^ digits m.
Proof.
  unfold digits. induction m as [p IH|p IH|]; cbn [digits2_pos].
  - rewrite Pos2Z.inj_succ, Pos2Z.inj_xI.
    replace (Z.succ (Zpos (digits2_pos p)) - 1)
      with (Z.succ (Zpos (digits2_pos p) - 1)) by lia.
    rewrite !Z.pow_succ_r by lia. lia.
  - rewrite Pos2Z.inj_succ. change (Zpos p~0) with (2 * Zpos p).
    replace (Z.succ (Zpos (digits2_pos p)) - 1)
      with (Z.succ (Zpos (digits2_pos p) - 1)) by lia.
    rewrite !Z.pow_succ_r by lia. lia.
  - cbn. lia.
Qed.

Lemma digits_positive (m : positive) : 0 < digits m.
Proof. unfold digits. lia. Qed.

Lemma digits_unique (m : positive) (k : Z) :
  2 ^ (k - 1) <= Zpos m < 2 ^ k -> digits m = k.
Proof.
  intros [Hlo Hhi]. pose proof (digits_spec m) as [Hlo' Hhi'].
  pose proof (digits_positive m) as Hpos.
  destruct (Z.lt_trichotomy (digits m) k) as [Hlt|[Heq|Hgt]]; [|done|].
  - assert (2 ^ digits m <= 2 ^ (k - 1)) by (apply Z.pow_le_mono_r; lia). lia.
  - assert (0 < k).
    { destruct (Z.le_gt_cases k 0) as [Hk|]; [|done].
      rewrite Z.pow_neg_r in Hlo by lia.
      destruct (Z.eq_dec k 0) as [->|]; [cbn in Hhi; lia|].
      rewrite Z.pow_neg_r in Hhi by lia. lia. }
    assert (2 ^ k <= 2 ^ (digits m - 1)) by (apply Z.pow_le_mono_r; lia). lia.
Qed.

Lemma digits_shift (m k : positive) (n : Z) :
  0 <= n -> Zpos m = Zpos k * 2 ^ n -> digits m = digits k + n.
Proof.
  intros Hn Hm. apply digits_unique. rewrite Hm.
  pose proof (digits_spec k) as [Hlo Hhi].
  pose proof (digits_positive k) as Hpos.
  replace (digits k + n - 1) with (digits k - 1 + n) by lia.
  rewrite !Z.pow_add_r by lia.
  assert (0 < 2 ^ n) by (apply Z.pow_pos_nonneg; lia). nia.
Qed.

Lemma bounded_spec (m : positive) (e : Z) :
  bounded prec emax m e = true <-> fexp64 (digits m + e) = e /\ e <= 971.
Proof.
  unfold bounded, canonical_mantissa. rewrite fexp_fexp64.
  rewrite andb_true_iff, Z.eqb_eq, Z.leb_le. reflexivity.
Qed.

Lemma iter_pos_iter {A : Type} (f : A -> A) (p : positive) (x : A) :
  SpecFloat.iter_pos f p x = Pos.iter f x p.
Proof.
  revert x. induction p as [p IH|p IH|]; intros x; cbn [SpecFloat.iter_pos Pos.iter].
  - by rewrite !IH, !Pos.iter_swap.
  - by rewrite !IH.
  - reflexivity.
Qed.

(** Shifting out zero bits loses nothing. *)
Lemma shr_1_even (k : Z) :
  0 <= k ->
  shr_1 {| shr_m := 2 * k; shr_r := false; shr_s := false |}
  = {| shr_m := k; shr_r := false; shr_s := false |}.
Proof. intros Hk. destruct k as [|p|p]; [reflexivity..|lia]. Qed.

Lemma shr_exact_pos (p : positive) (k : Z) :
  0 <= k ->
  Pos.iter shr_1
    {| shr_m := k * 2 ^ Zpos p; shr_r := false; shr_s := false |} p
  = {| shr_m := k; shr_r := false; shr_s := false |}.
Proof.
  intros Hk. induction p as [|p IH] using Pos.peano_ind.
  { cbn [Pos.iter]. rewrite <- (shr_1_even k Hk). f_equal. f_equal. lia. }
  rewrite Pos.iter_succ, <- Pos.iter_swap.
  replace (k * 2 ^ Zpos (Pos.succ p)) with (2 * (k * 2 ^ Zpos p)).
  - rewrite shr_1_even; [exact IH|].
    assert (0 <= 2 ^ Zpos p) by (apply Z.pow_nonneg; lia). nia.
  - rewrite Pos2Z.inj_succ, Z.pow_succ_r by lia. lia.
Qed.

Lemma shr_exact (k e n : Z) :
  0 <= k -> 0 <= n ->
  shr {| shr_m := k * 2 ^ n; shr_r := false; shr_s := false |} e n
  = ({| shr_m := k; shr_r := false; shr_s := false |}, e + n).
Proof.
  intros Hk Hn. unfold shr. destruct n as [|p|p]; [|  |lia].
  - rewrite Z.mul_1_r, Z.add_0_r. reflexivity.
  - rewrite iter_pos_iter. f_equal. by apply shr_exact_pos.
Qed.

Lemma shl_exact (m : positive) (d : positive) :
  Zpos (Pos.iter xO m d) = Zpos m * 2 ^ Zpos d.
Proof.
  induction d as [|d IH] using Pos.peano_ind.
  - cbn. lia.
  - rewrite Pos.iter_succ.
    change (Zpos (Pos.iter xO m d)~0) with (2 * Zpos (Pos.iter xO m d)).
    rewrite IH, Pos2Z.inj_succ.
    rewrite Z.pow_succ_r by lia. lia.
Qed.

(** ** Rounding a value that needs no rounding *)

Lemma binary_round_aux_exact (s : bool) (k : positive) (n e : Z) :
  0 <= n -> bounded prec emax k (e + n) = true ->
  binary_round_aux prec emax s (Zpos k * 2 ^ n) e loc_Exact
  = S754_finite s k (e + n).
Proof.
  intros Hn [Hcan Hmax]%bounded_spec.
  assert (Hpos : 0 < Zpos k * 2 ^ n).
  { assert (0 < 2 ^ n) by (apply Z.pow_pos_nonneg; lia). nia. }
  destruct (Zpos k * 2 ^ n) as [|M|M] eqn:HM; [lia| |lia].
  assert (Hdig : digits M = digits k + n) by by apply digits_shift.
  unfold binary_round_aux, shr_fexp. cbn [Zdigits2 shr_record_of_loc].
  fold (digits M). rewrite fexp_fexp64, Hdig.
  replace (digits k + n + e) with (digits k + (e + n)) by lia.
  rewrite Hcan. replace (e + n - e) with n by lia.
  rewrite <- HM, shr_exact by lia.
  cbn [shr_m loc_of_shr_record round_nearest_even Zdigits2 shr_record_of_loc].
  fold (digits k). rewrite fexp_fexp64, Hcan, Z.sub_diag. cbn [shr shr_m].
  apply Z.leb_le in Hmax. change (emax - prec) with 971. by rewrite Hmax.
Qed.

Lemma binary_normalize_exact (M k : positive) (e e' : Z) (sz : bool) :
  bounded prec emax k e' = true ->
  (e' <= e /\ Zpos k = Zpos M * 2 ^ (e - e'))
  \/ (e <= e' /\ Zpos M = Zpos k * 2 ^ (e' - e)) ->
  binary_normalize prec emax (Zpos M) e sz = S754_finite false k e'.
Proof.
  intros Hb Hval. pose proof Hb as [Hcan Hmax]%bounded_spec.
  assert (Hdig : digits M + e = digits k + e').
  { destruct Hval as [[Hle Hk]|[Hle HM]].
    - rewrite (digits_shift k M (e - e')) by (lia || done). lia.
    - rewrite (digits_shift M k (e' - e)) by (lia || done). lia. }
  unfold binary_normalize, binary_round. fold (digits M).
  rewrite fexp_fexp64, Hdig, Hcan. unfold shl_align.
  destruct (e' - e) as [|d|d] eqn:Hd.
  - assert (e' = e) as -> by lia.
    assert (M = k) as ->.
    { destruct Hval as [[_ Hk]|[_ HM]];
        rewrite Z.sub_diag, Z.mul_1_r in *; congruence. }
    rewrite <- (Z.add_0_r e) at 2.
    rewrite <- (Z.mul_1_r (Zpos k)).
    apply (binary_round_aux_exact false k 0 e); [lia|by rewrite Z.add_0_r].
  - destruct Hval as [[Hle Hk]|[Hle HM]]; [lia|].
    assert (He : e' = e + Zpos d) by lia.
    rewrite HM, He. apply binary_round_aux_exact; [lia|by rewrite <- He].
  - destruct Hval as [[Hle Hk]|[Hle HM]]; [|lia].
    assert (Pos.iter xO M d = k) as ->.
    { apply Pos2Z.inj. rewrite shl_exact, Hk. f_equal. f_equal. lia. }
    rewrite <- (Z.add_0_r e') at 2.
    rewrite <- (Z.mul_1_r (Zpos k)).
    apply (binary_round_aux_exact false k 0 e'); [lia|by rewrite Z.add_0_r].
Qed.

Lemma digits_le_53 (n : positive) : Zpos n < 2 ^ 53 -> digits n <= 53.
Proof.
  intros Hn. pose proof (digits_spec n) as [Hlo _].
  destruct (Z.le_gt_cases (digits n) 53) as [|Hgt]; [done|].
  assert (2 ^ 53 <= 2 ^ (digits n - 1)) by (apply Z.pow_le_mono_r; lia). lia.
Qed.

Lemma pow2_lt_inv (a b : Z) : 0 <= b -> 2 ^ a < 2 ^ b -> a < b.
Proof.
  intros Hb Hlt. destruct (Z.le_gt_cases b a) as [Hle|]; [|done].
  assert (2 ^ b <= 2 ^ a) by (apply Z.pow_le_mono_r; lia). lia.
Qed.

(** Such a value has a well-formed double. *)
Lemma canonical_of_small (v : Z) :
  small_exact v ->
  exists (k : positive) (e : Z),
    bounded prec emax k e = true /\ -1074 <= e <= 0
    /\ Zpos k * 2 ^ (e + 1074) = v
    /\ forall (M : positive) (e0 : Z),
         -1074 <= e0 -> Zpos M * 2 ^ (e0 + 1074) = v ->
         digits M + e0 = digits k + e.
Proof.
  intros (n & t & [Hn0 Hn] & Ht & -> & Hv).
  destruct n as [|n|n]; [lia| |lia].
  pose proof (digits_le_53 n Hn) as Hdn.
  pose proof (digits_positive n) as Hdp.
  pose proof (digits_spec n) as [Hlo Hhi].
  set (sh := Z.max (digits n + t - 53) 0).
  assert (Hsh : 0 <= sh <= t) by lia.
  assert (H2 : 0 < 2 ^ (t - sh)) by (apply Z.pow_pos_nonneg; lia).
  assert (Hk : 0 < Zpos n * 2 ^ (t - sh)) by nia.
  destruct (Zpos n * 2 ^ (t - sh)) as [|k|k] eqn:HK; [lia| |lia].
  assert (Hdk : digits k = digits n + (t - sh)) by (apply digits_shift; lia).
  assert (Hd : digits n + t <= 1127).
  { assert (2 ^ (digits n - 1 + t) < 2 ^ 1127).
    { rewrite Z.pow_add_r by lia.
      assert (0 < 2 ^ t) by (apply Z.pow_pos_nonneg; lia). nia. }
    apply pow2_lt_inv in H; lia. }
  exists k, (sh - 1074). split; [|split; [|split]].
  - apply bounded_spec. unfold fexp64. lia.
  - lia.
  - rewrite <- HK. replace (sh - 1074 + 1074) with sh by lia.
    rewrite <- Z.mul_assoc, <- Z.pow_add_r by lia. f_equal. f_equal. lia.
  - intros M e0 He0 HM.
    assert (Hsame : Zpos M * 2 ^ (e0 + 1074) = Zpos k * 2 ^ sh).
    { rewrite HM, <- HK, <- Z.mul_assoc, <- Z.pow_add_r by lia.
      f_equal. f_equal. lia. }
    assert (0 < Zpos M * 2 ^ (e0 + 1074)).
    { assert (0 < 2 ^ (e0 + 1074)) by (apply Z.pow_pos_nonneg; lia). nia. }
    destruct (Zpos M * 2 ^ (e0 + 1074)) as [|V|V] eqn:HV; [lia| |lia].
    assert (digits V = digits M + (e0 + 1074)) by (apply digits_shift; lia).
    assert (digits V = digits k + sh) by (apply digits_shift; lia).
    lia.
Qed.

Lemma pow2_cancel (a b p q r : Z) :
  0 <= p -> 0 <= q <= r -> a * 2 ^ (p + q) = b * 2 ^ r ->
  a * 2 ^ p = b * 2 ^ (r - q).
Proof.
  intros Hp Hq H. assert (0 < 2 ^ q) by (apply Z.pow_pos_nonneg; lia).
  apply (Z.mul_reg_r _ _ (2 ^ q)); [lia|].
  rewrite <- !Z.mul_assoc, <- !Z.pow_add_r by lia.
  by replace (r - q + q) with r by lia.
Qed.

Lemma holds_finite (k : positive) (e : Z) :
  bounded prec emax k e = true ->
  holds (S754_finite false k e) (Zpos k * 2 ^ (e + 1074)).
Proof. intros Hb. split; [right; eauto|reflexivity]. Qed.

Lemma holds_zero : holds (S754_zero false) 0.
Proof. split; [by left|reflexivity]. Qed.

Lemma holds_nonneg (x : float) (v : Z) : holds x v -> 0 <= v.
Proof.
  intros [[->|(m & e & -> & Hb)] <-]; cbn; [lia|].
  assert (0 <= 2 ^ (e + 1074)) by (apply Z.pow_nonneg; lia). nia.
Qed.

Lemma bounded_emin (k : positive) (e : Z) :
  bounded prec emax k e = true -> -1074 <= e.
Proof. intros [Hcan _]%bounded_spec. unfold fexp64 in Hcan. lia. Qed.

Lemma holds_inv (x : float) (v : Z) :
  holds x v ->
  (x = S754_zero false /\ v = 0)
  \/ exists (m : positive) (e : Z),
       x = S754_finite false m e /\ bounded prec emax m e = true
       /\ -1074 <= e /\ v = Zpos m * 2 ^ (e + 1074) /\ 0 < v.
Proof.
  intros [[->|(m & e & -> & Hb)] <-]; [by left|right].
  exists m, e. pose proof (bounded_emin m e Hb). cbn [scaled cond_Zopp].
  assert (0 < 2 ^ (e + 1074)) by (apply Z.pow_pos_nonneg; lia).
  repeat split; try done; nia.
Qed.

Lemma normalize_small (M : positive) (e : Z) (sz : bool) :
  -1074 <= e -> small_exact (Zpos M * 2 ^ (e + 1074)) ->
  holds (binary_normalize prec emax (Zpos M) e sz) (Zpos M * 2 ^ (e + 1074)).
Proof.
  intros He (k & e' & Hb & He' & Hval & _)%canonical_of_small.
  rewrite (binary_normalize_exact M k e e' sz Hb).
  - rewrite <- Hval. by apply holds_finite.
  - destruct (Z.le_gt_cases e' e) as [Hle|Hgt]; [left|right].
    + split; [done|].
      replace (Zpos k) with (Zpos k * 2 ^ 0) by lia.
      replace (e - e') with (e + 1074 - (e' + 1074)) by lia.
      apply pow2_cancel; [lia..|by rewrite Z.add_0_l].
    + split; [lia|].
      replace (Zpos M) with (Zpos M * 2 ^ 0) by lia.
      replace (e' - e) with (e' + 1074 - (e + 1074)) by lia.
      apply pow2_cancel; [lia..|by rewrite Z.add_0_l].
Qed.

Lemma round_aux_small (Q : positive) (e : Z) :
  -1074 <= e -> e <= fexp64 (digits Q + e) ->
  small_exact (Zpos Q * 2 ^ (e + 1074)) ->
  holds (binary_round_aux prec emax false (Zpos Q) e loc_Exact)
        (Zpos Q * 2 ^ (e + 1074)).
Proof.
  intros He Hfexp (k & e' & Hb & He' & Hval & Hdig)%canonical_of_small.
  pose proof Hb as [Hcan _]%bounded_spec.
  rewrite (Hdig Q e He eq_refl), Hcan in Hfexp.
  assert (HQ : Zpos Q = Zpos k * 2 ^ (e' - e)).
  { replace (Zpos Q) with (Zpos Q * 2 ^ 0) by lia.
    replace (e' - e) with (e' + 1074 - (e + 1074)) by lia.
    apply pow2_cancel; [lia..|by rewrite Z.add_0_l]. }
  rewrite HQ at 1. rewrite binary_round_aux_exact; [|lia|].
  - replace (e + (e' - e)) with e' by lia. rewrite <- Hval.
    by apply holds_finite.
  - by replace (e + (e' - e)) with e' by lia.
Qed.

Lemma shl_align_fst (m : positive) (e e' : Z) :
  e' <= e -> Zpos (fst (shl_align m e e')) = Zpos m * 2 ^ (e - e').
Proof.
  intros Hle. unfold shl_align. destruct (e' - e) as [|d|d] eqn:Hd.
  - cbn [fst]. replace (e - e') with 0 by lia. lia.
  - lia.
  - cbn [fst]. rewrite shl_exact. f_equal. f_equal. lia.
Qed.

Lemma sixty_round : round_Z 60 = sixty.
Proof. reflexivity. Qed.

Lemma small_exact_intro (n t : Z) :
  0 < n < 2 ^ 53 -> 0 <= t -> n * 2 ^ t < 2 ^ 1127 -> small_exact (n * 2 ^ t).
Proof. intros. exists n, t. done. Qed.

(** ** The operations of [divmod], on values that stay exact *)

Lemma bounded_mantissa (k : positive) (e : Z) :
  bounded prec emax k e = true -> Zpos k < 2 ^ 53.
Proof.
  intros [Hcan _]%bounded_spec. pose proof (digits_spec k) as [_ Hhi].
  assert (digits k <= 53) by (unfold fexp64 in Hcan; lia).
  assert (2 ^ digits k <= 2 ^ 53) by (apply Z.pow_le_mono_r; lia). lia.
Qed.

Lemma sixty_units (ez : Z) :
  -1074 <= ez <= -47 ->
  Zpos (fst (shl_align 8444249301319680 (-47) ez)) * 2 ^ (ez + 1074)
  = 60 * 2 ^ 1074.
Proof.
  intros Hez. rewrite shl_align_fst by lia.
  change (Zpos 8444249301319680) with (60 * 2 ^ 47).
  rewrite <- !Z.mul_assoc, <- !Z.pow_add_r by lia. f_equal. f_equal. lia.
Qed.

Lemma ffmod_sixty_exact (x : float) (v : Z) :
  holds x v -> v < 2 ^ 1127 ->
  holds (ffmod x sixty) (v mod (60 * 2 ^ 1074)).
Proof.
  intros [[-> ->]|(m & e & -> & Hb & He & -> & Hpos)]%holds_inv Hv.
  { rewrite Z.mod_0_l by lia. apply holds_zero. }
  unfold ffmod, sixty. cbn [cond_Zopp].
  set (ez := Z.min e (-47)).
  assert (Hez : -1074 <= ez <= -47) by lia.
  pose proof (sixty_units ez Hez) as Hay.
  pose proof (shl_align_fst m e ez ltac:(lia)) as Hax.
  pose proof (shl_align_fst 8444249301319680 (-47) ez ltac:(lia)) as Hay'.
  set (ax := Zpos (fst (shl_align m e ez))) in *.
  set (ay := Zpos (fst (shl_align 8444249301319680 (-47) ez))) in *.
  assert (Hw : 0 < 2 ^ (ez + 1074)) by (apply Z.pow_pos_nonneg; lia).
  assert (Hv' : Zpos m * 2 ^ (e + 1074) = ax * 2 ^ (ez + 1074)).
  { rewrite Hax, <- Z.mul_assoc, <- Z.pow_add_r by lia.
    f_equal. f_equal. lia. }
  assert (Hmod : (Zpos m * 2 ^ (e + 1074)) mod (60 * 2 ^ 1074)
                 = ax mod ay * 2 ^ (ez + 1074)).
  { rewrite Hv', <- Hay. apply Z.mul_mod_distr_r; lia. }
  rewrite Hmod.
  assert (Hax0 : 0 < ax) by (unfold ax; lia).
  assert (Hay0 : 0 < ay) by (unfold ay; lia).
  pose proof (Z.mod_pos_bound ax ay Hay0) as [HR0 HR].
  pose proof (Z.mod_le ax ay ltac:(lia) Hay0) as HRle.
  destruct (ax mod ay) as [|R|R] eqn:HRp; [apply holds_zero| |lia].
  apply normalize_small; [lia|].
  apply small_exact_intro; [split; [lia|]|lia|].
  - pose proof (bounded_mantissa m e Hb) as Hm.
    destruct (Z.le_gt_cases e (-47)) as [Hle|Hgt].
    + assert (ez = e) as Heq by lia.
      rewrite Heq, Z.sub_diag, Z.mul_1_r in Hax. lia.
    + assert (ez = -47) as Heq by lia.
      rewrite Heq in Hay'. cbn in Hay'. lia.
  - rewrite Hv' in Hv. nia.
Qed.

Lemma fsub_exact (x y : float) (vx vy : Z) :
  holds x vx -> holds y vy -> vy <= vx ->
  vx - vy = 0 \/ small_exact (vx - vy) ->
  holds (fsub x y) (vx - vy).
Proof.
  intros [[-> ->]|(mx & ex & -> & Hbx & Hex & -> & Hpx)]%holds_inv
         [[-> ->]|(my & ey & -> & Hby & Hey & -> & Hpy)]%holds_inv Hle Hsmall.
  - apply holds_zero.
  - lia.
  - rewrite Z.sub_0_r. by apply holds_finite.
  - unfold fsub, SFsub. cbn [cond_Zopp].
    set (ez := Z.min ex ey).
    rewrite !shl_align_fst by lia.
    assert (Hw : 0 < 2 ^ (ez + 1074)) by (apply Z.pow_pos_nonneg; lia).
    assert (Hd : (Zpos mx * 2 ^ (ex - ez) - Zpos my * 2 ^ (ey - ez))
                 * 2 ^ (ez + 1074)
                 = Zpos mx * 2 ^ (ex + 1074) - Zpos my * 2 ^ (ey + 1074)).
    { rewrite Z.mul_sub_distr_r, <- !Z.mul_assoc, <- !Z.pow_add_r by lia.
      f_equal; f_equal; f_equal; lia. }
    rewrite <- Hd in Hsmall |- *.
    destruct (Zpos mx * 2 ^ (ex - ez) - Zpos my * 2 ^ (ey - ez))
      as [|D|D] eqn:HD.
    + apply holds_zero.
    + apply normalize_small; [lia|]. destruct Hsmall as [H0|]; [lia|done].
    + nia.
Qed.

Lemma fexp64_mono (a b : Z) : a <= b -> fexp64 a <= fexp64 b.
Proof. unfold fexp64. lia. Qed.

Lemma div_eucl_div_mod (a b : Z) : Z.div_eucl a b = (a / b, a mod b).
Proof. unfold Z.div, Z.modulo. by destruct (Z.div_eucl a b). Qed.

Lemma fdiv_sixty_exact (x : float) (q : Z) :
  holds x (60 * q * 2 ^ 1074) -> 60 * q < 2 ^ 53 ->
  holds (fdiv x sixty) (q * 2 ^ 1074).
Proof.
  assert (HU : 0 < 2 ^ 1074) by (apply Z.pow_pos_nonneg; lia).
  intros [[-> Hq0]|(k & e & -> & Hb & He & Hv & Hpos)]%holds_inv Hq.
  { assert (q = 0) as -> by nia. apply holds_zero. }
  assert (Hq0 : 0 < q) by nia.
  destruct q as [|qp|qp]; [lia| |lia].
  pose proof (digits_spec k) as [Hklo Hkhi].
  pose proof (digits_spec qp) as [Hqlo Hqhi].
  pose proof (digits_positive k) as Hdk. pose proof (digits_positive qp) as Hdq.
  assert (Hdig53 : digits k + e <= 53).
  { assert (2 ^ (digits k - 1 + (e + 1074)) < 2 ^ 1127).
    { rewrite (Z.pow_add_r 2 (digits k - 1)) by lia.
      assert (0 < 2 ^ (e + 1074)) by (apply Z.pow_pos_nonneg; lia).
      apply Z.le_lt_trans with (Zpos k * 2 ^ (e + 1074));
        [apply Z.mul_le_mono_nonneg_r; lia|].
      rewrite <- Hv. change (2 ^ 1127) with (2 ^ 53 * 2 ^ 1074).
      apply Zmult_lt_compat_r; lia. }
    apply pow2_lt_inv in H; lia. }
  assert (Hdigq : digits k + e - 6 <= digits qp).
  { assert (2 ^ (digits k - 1 + (e + 1074)) < 2 ^ (digits qp + 6 + 1074)).
    { rewrite (Z.pow_add_r 2 (digits k - 1)), (Z.pow_add_r 2 (digits qp + 6)),
        (Z.pow_add_r 2 (digits qp)) by lia.
      assert (0 < 2 ^ (e + 1074)) by (apply Z.pow_pos_nonneg; lia).
      change (2 ^ 6) with 64.
      apply Z.le_lt_trans with (Zpos k * 2 ^ (e + 1074));
        [apply Z.mul_le_mono_nonneg_r; lia|].
      rewrite <- Hv. apply Zmult_lt_compat_r; lia. }
    apply pow2_lt_inv in H; lia. }
  unfold fdiv, SFdiv, sixty, SFdiv_core_binary.
  cbn [Zdigits2 xorb]. fold (digits k). rewrite fexp_fexp64.
  change (Zpos (digits2_pos 8444249301319680)) with 53.
  replace (digits k + e - (53 + -47)) with (digits k + e - 6) by lia.
  replace (e - -47) with (e + 47) by lia.
  set (e' := Z.min (fexp64 (digits k + e - 6)) (e + 47)).
  assert (He' : -1074 <= e' <= -6) by (unfold e', fexp64; lia).
  set (s := e + 47 - e').
  assert (Hs : 0 <= s) by lia.
  set (m' := match s with
             | 0 => Zpos k
             | Zpos _ => Z.shiftl (Zpos k) s
             | Zneg _ => 0
             end).
  assert (Hm' : m' = Zpos qp * 2 ^ (- e') * Zpos 8444249301319680).
  { assert (m' = Zpos k * 2 ^ s) as ->.
    { unfold m'. destruct s as [|p|p] eqn:Hsp; [lia| |lia].
      by rewrite Z.shiftl_mul_pow2. }
    change (Zpos 8444249301319680) with (60 * 2 ^ 47).
    assert (Hk : Zpos k * 2 ^ (e + 47 - e' + (e' + 1074))
                 = Zpos qp * 2 ^ (- e') * (60 * 2 ^ 47) * 2 ^ (e' + 1074)).
    { replace (e + 47 - e' + (e' + 1074)) with (e + 1074 + 47) by lia.
      rewrite Z.pow_add_r, Z.mul_assoc, <- Hv by lia.
      replace (Zpos qp * 2 ^ (- e') * (60 * 2 ^ 47) * 2 ^ (e' + 1074))
        with (60 * Zpos qp * (2 ^ (- e') * 2 ^ (e' + 1074)) * 2 ^ 47) by ring.
      rewrite <- Z.pow_add_r by lia.
      by replace (- e' + (e' + 1074)) with 1074 by lia. }
    unfold s. rewrite Z.pow_add_r in Hk by lia.
    assert (0 < 2 ^ (e' + 1074)) by (apply Z.pow_pos_nonneg; lia).
    apply (Z.mul_reg_r _ _ (2 ^ (e' + 1074))); [lia|].
    rewrite <- Hk. ring. }
  rewrite div_eucl_div_mod, Hm', Z_div_mult, Z_mod_mult by lia.
  change (new_location (Zpos 8444249301319680) 0) with loc_Exact.
  assert (HQ : 0 < Zpos qp * 2 ^ (- e')).
  { assert (0 < 2 ^ (- e')) by (apply Z.pow_pos_nonneg; lia). nia. }
  destruct (Zpos qp * 2 ^ (- e')) as [|Q|Q] eqn:HQp; [lia| |lia].
  assert (HdQ : digits Q = digits qp + - e') by (apply digits_shift; lia).
  assert (Hval : Zpos Q * 2 ^ (e' + 1074) = Zpos qp * 2 ^ 1074).
  { rewrite <- HQp, <- Z.mul_assoc, <- Z.pow_add_r by lia.
    f_equal. f_equal. lia. }
  rewrite <- Hval. apply round_aux_small; [lia| |].
  - rewrite HdQ. replace (digits qp + - e' + e') with (digits qp) by lia.
    etrans; [apply Z.le_min_l|]. by apply fexp64_mono.
  - rewrite Hval. apply small_exact_intro; [lia|lia|].
    assert (2 ^ 1127 = 2 ^ 53 * 2 ^ 1074) by (rewrite <- Z.pow_add_r; lia).
    nia.
Qed.

Lemma holds_zero_inv (x : float) : holds x 0 -> x = S754_zero false.
Proof. intros [[-> _]|(m & e & _ & _ & _ & _ & Hpos)]%holds_inv; [done|lia]. Qed.

(** [floor] keeps a double that is a whole number. *)
Lemma ffloor_integer (x : float) (q : Z) :
  holds x (q * 2 ^ 1074) -> ffloor x = x.
Proof.
  intros [[-> _]|(k & e & -> & Hb & He & Hv & Hpos)]%holds_inv; [done|].
  unfold ffloor. cbv zeta. destruct (0 <=? e) eqn:Hsign; [done|].
  apply Z.leb_gt in Hsign.
  assert (Hk : Zpos k = q * 2 ^ (- e)).
  { replace (Zpos k) with (Zpos k * 2 ^ 0) by lia.
    replace (- e) with (1074 - (e + 1074)) by lia.
    apply pow2_cancel; [lia..|]. by rewrite Z.add_0_l. }
  assert (H2 : 0 < 2 ^ (- e)) by (apply Z.pow_pos_nonneg; lia).
  assert (Hq : 0 < q) by nia.
  rewrite Z.shiftr_div_pow2, Hk, Z_div_mult by lia.
  destruct q as [|qp|qp]; [lia| |lia].
  unfold round_Z. apply binary_normalize_exact; [done|].
  left. split; [lia|]. by rewrite Z.sub_0_l.
Qed.

Lemma fdiv_nonneg_sign (m k : positive) (e f : Z) :
  sign_bit (fdiv (S754_finite false m e) (S754_finite false k f)) = false.
Proof.
  unfold fdiv, SFdiv.
  destruct (SFdiv_core_binary prec emax (Zpos m) e (Zpos k) f) as [[mz ez] lz].
  unfold binary_round_aux. destruct (shr_fexp prec emax mz ez lz) as [mrs e1].
  destruct (shr_fexp prec emax _ e1 loc_Exact) as [mrs' e2].
  destruct (shr_m mrs'); [done| |done].
  by destruct (e2 <=? emax - prec).
Qed.

(** [divmod(x, 60)] is exact on a double that is not negative and lies
    below [2 ^ 53]: the quotient is the whole number of sixties in [x]
    and the remainder what is left. *)
Lemma float_divmod_sixty (x : float) (v : Z) :
  holds x v -> v < 2 ^ 1127 ->
  exists q r : float,
    float_divmod x sixty = Return (q, r)
    /\ holds q (v / (60 * 2 ^ 1074) * 2 ^ 1074)
    /\ holds r (v mod (60 * 2 ^ 1074)).
Proof.
  intros Hx Hv. pose proof (holds_nonneg x v Hx) as Hv0.
  assert (HU : 0 < 2 ^ 1074) by (apply Z.pow_pos_nonneg; lia).
  pose proof (Z.div_mod v (60 * 2 ^ 1074) ltac:(lia)) as Hdm.
  pose proof (Z.mod_pos_bound v (60 * 2 ^ 1074) ltac:(lia)) as [Hr0 Hr].
  pose proof (Z.div_pos v (60 * 2 ^ 1074) Hv0 ltac:(lia)) as Hq0.
  set (q0 := v / (60 * 2 ^ 1074)) in *. set (r0 := v mod (60 * 2 ^ 1074)) in *.
  assert (Hsmallq : 60 * q0 < 2 ^ 53).
  { assert (60 * q0 * 2 ^ 1074 < 2 ^ 53 * 2 ^ 1074)
      by (change (2 ^ 53 * 2 ^ 1074) with (2 ^ 1127); lia).
    by apply Z.mul_lt_mono_pos_r in H. }
  pose proof (ffmod_sixty_exact x v Hx Hv) as Hmod. fold r0 in Hmod.
  assert (Hsub : holds (fsub x (ffmod x sixty)) (60 * q0 * 2 ^ 1074)).
  { replace (60 * q0 * 2 ^ 1074) with (v - r0) by lia.
    apply fsub_exact; [done..|lia|].
    destruct (Z.eq_dec q0 0) as [Hz|Hnz]; [left; lia|right].
    replace (v - r0) with (60 * q0 * 2 ^ 1074) by lia.
    apply small_exact_intro; lia. }
  pose proof (fdiv_sixty_exact _ q0 Hsub Hsmallq) as Hdiv.
  unfold float_divmod. change (feqb sixty fzero) with false. cbv iota.
  set (mod0 := ffmod x sixty) in *.
  set (div0 := fdiv (fsub x mod0) sixty) in *.
  assert (Hadj : (if truthy mod0
                  then if xorb (fltb sixty fzero) (fltb mod0 fzero)
                       then (fadd mod0 sixty, fsub div0 fone)
                       else (mod0, div0)
                  else (zero_with_sign_of sixty, div0)) = (mod0, div0)).
  { destruct Hmod as [[->|(m & e & -> & _)] _]; reflexivity. }
  rewrite Hadj.
  assert (Hfloor : (if truthy div0
                    then if fltb fhalf (fsub div0 (ffloor div0))
                         then fadd (ffloor div0) fone else ffloor div0
                    else zero_with_sign_of (fdiv x sixty)) = div0).
  { rewrite (ffloor_integer div0 q0 Hdiv).
    assert (Hself : fsub div0 div0 = S754_zero false).
    { apply holds_zero_inv. rewrite <- (Z.sub_diag (q0 * 2 ^ 1074)).
      apply fsub_exact; [done..|lia|left; lia]. }
    rewrite Hself.
    destruct Hdiv as [[Hz|(m & e & Hfin & _)] _].
    - rewrite Hz. cbn [truthy feqb SFeqb SFcompare negb fzero].
      unfold zero_with_sign_of.
      destruct Hx as [[->|(mx & ex & -> & _)] _]; [reflexivity|].
      unfold sixty. by rewrite fdiv_nonneg_sign.
    - rewrite Hfin. reflexivity. }
  rewrite Hfloor. eauto.
Qed.

(** The converter on a scaled magnitude that is exact and below
    [2 ^ 53]: degrees, minutes and seconds in units of [2 ^ -1074]. *)
Lemma decimal_degrees_exact (decimal : float) (v : Z) :
  holds (fmul (fabs decimal) (round_Z 3600)) v -> v < 2 ^ 1127 ->
  exists deg mnt sec : float,
    decimal_degrees_to_minutes_seconds decimal = Return (deg, mnt, sec)
    /\ holds deg (v / (3600 * 2 ^ 1074) * 2 ^ 1074)
    /\ holds mnt ((v / (60 * 2 ^ 1074)) mod 60 * 2 ^ 1074)
    /\ holds sec (v mod (60 * 2 ^ 1074)).
Proof.
  intros Hx Hv. pose proof (holds_nonneg _ v Hx) as Hv0.
  assert (HU : 0 < 2 ^ 1074) by (apply Z.pow_pos_nonneg; lia).
  unfold decimal_degrees_to_minutes_seconds.
  change (float_of_int 3600) with (Return (round_Z 3600)).
  change (float_of_int 60) with (Return sixty). cbn [mbind outcome_bind].
  destruct (float_divmod_sixty _ v Hx Hv) as (q1 & sec & -> & Hq1 & Hsec).
  cbn [mbind outcome_bind].
  set (q0 := v / (60 * 2 ^ 1074)) in *.
  assert (Hq0 : 0 <= q0) by (apply Z.div_pos; lia).
  assert (Hq0v : q0 * 2 ^ 1074 < 2 ^ 1127).
  { pose proof (Z.mul_div_le v (60 * 2 ^ 1074) ltac:(lia)). fold q0 in H. nia. }
  destruct (float_divmod_sixty _ _ Hq1 Hq0v) as (deg & mnt & -> & Hdeg & Hmnt).
  cbn [mbind outcome_bind]. exists deg, mnt, sec.
  split; [reflexivity|]. split; [|split; [|done]].
  - replace (v / (3600 * 2 ^ 1074)) with (q0 * 2 ^ 1074 / (60 * 2 ^ 1074));
      [done|].
    rewrite Z.div_mul_cancel_r by lia. unfold q0.
    rewrite Z.div_div by lia. f_equal; lia.
  - replace (q0 mod 60 * 2 ^ 1074) with ((q0 * 2 ^ 1074) mod (60 * 2 ^ 1074));
      [done|].
    apply Z.mul_mod_distr_r; lia.
Qed.

(** ** From units back to numbers *)

Lemma Qvalue_holds (x : float) (v : Z) :
  holds x v -> (Qvalue x == inject_Z v / inject_Z (2 ^ 1074))%Q.
Proof.
  assert (HU : ~ (inject_Z (2 ^ 1074) == 0)%Q).
  { change 0%Q with (inject_Z 0). rewrite inject_Z_injective.
    apply Z.pow_nonzero; lia. }
  intros [[-> ->]|(m & e & -> & Hb & He & -> & Hpos)]%holds_inv.
  - cbn [Qvalue]. change (inject_Z 0) with 0%Q. by field.
  - cbn [Qvalue cond_Zopp].
    rewrite inject_Z_mult, (Zpower_Qpower 2 (e + 1074)) by lia.
    change (inject_Z 2) with (2 # 1).
    rewrite Qpower_plus by done.
    rewrite <- (Zpower_Qpower 2 1074) by lia. by field.
Qed.

(** ** Rounding always yields a well-formed double *)

Lemma shr_1_m (mrs : shr_record) :
  0 <= shr_m mrs -> shr_m (shr_1 mrs) = shr_m mrs / 2.
Proof.
  destruct mrs as [m r s]. cbn [shr_m]. intros Hm.
  destruct m as [|[p|p|]|p]; cbn [shr_1 shr_m]; [done| | |done|lia].
  - apply (Z.div_unique_pos _ _ _ 1); lia.
  - apply (Z.div_unique_pos _ _ _ 0); lia.
Qed.

Lemma shr_m_iter (p : positive) (mrs : shr_record) :
  0 <= shr_m mrs ->
  shr_m (Pos.iter shr_1 mrs p) = shr_m mrs / 2 ^ Zpos p.
Proof.
  intros Hm. induction p as [|p IH] using Pos.peano_ind.
  { cbn [Pos.iter]. by rewrite shr_1_m. }
  assert (0 < 2 ^ Zpos p) by (apply Z.pow_pos_nonneg; lia).
  rewrite Pos.iter_succ, shr_1_m, IH.
  - rewrite Z.div_div, Pos2Z.inj_succ, Z.pow_succ_r by lia.
    f_equal. lia.
  - rewrite IH. apply Z.div_pos; lia.
Qed.

Lemma shr_value (mrs : shr_record) (e n : Z) :
  0 <= shr_m mrs -> 0 <= n ->
  shr_m (fst (shr mrs e n)) = shr_m mrs / 2 ^ n /\ snd (shr mrs e n) = e + n.
Proof.
  intros Hm Hn. unfold shr. destruct n as [|p|p]; cbn [fst snd]; [| |lia].
  - by rewrite Z.div_1_r, Z.add_0_r.
  - by rewrite iter_pos_iter, shr_m_iter.
Qed.

Lemma shr_nonpositive (mrs : shr_record) (e n : Z) :
  n <= 0 -> shr mrs e n = (mrs, e).
Proof. intros Hn. unfold shr. destruct n as [|p|p]; [done|lia|done]. Qed.

Lemma round_nearest_even_step (m : Z) (l : location) :
  round_nearest_even m l = m \/ round_nearest_even m l = m + 1.
Proof.
  destruct l as [|[]]; cbn [round_nearest_even]; auto.
  destruct (Z.even m); auto.
Qed.

Lemma digits_div (M p : positive) (n : Z) :
  0 <= n -> Zpos M / 2 ^ n = Zpos p -> digits p = digits M - n.
Proof.
  intros Hn Hp. pose proof (digits_spec M) as [Hlo Hhi].
  pose proof (digits_positive M) as HdM.
  assert (H2 : 0 < 2 ^ n) by (apply Z.pow_pos_nonneg; lia).
  assert (Hlt : n < digits M).
  { destruct (Z.le_gt_cases (digits M) n) as [Hle|]; [|done].
    assert (2 ^ digits M <= 2 ^ n) by (apply Z.pow_le_mono_r; lia).
    rewrite Z.div_small in Hp by lia. lia. }
  apply digits_unique. rewrite <- Hp. split.
  - apply Z.div_le_lower_bound; [done|].
    rewrite <- Z.pow_add_r by lia.
    by replace (n + (digits M - n - 1)) with (digits M - 1) by lia.
  - apply Z.div_lt_upper_bound; [done|].
    rewrite <- Z.pow_add_r by lia.
    by replace (n + (digits M - n)) with (digits M) by lia.
Qed.

Lemma digits_succ (p q : positive) :
  Zpos q = Zpos p + 1 ->
  digits q = digits p
  \/ (Zpos q = 2 ^ digits p /\ digits q = digits p + 1).
Proof.
  intros Hq. pose proof (digits_spec p) as [Hlo Hhi].
  pose proof (digits_positive p) as Hd.
  destruct (Z.eq_dec (Zpos q) (2 ^ digits p)) as [Heq|Hne].
  - right. split; [done|]. apply digits_unique.
    replace (digits p + 1 - 1) with (digits p) by lia.
    rewrite Z.pow_add_r by lia. lia.
  - left. apply digits_unique. lia.
Qed.

(** The outcome of rounding a positive number with exponent at most the
    one its size calls for. *)
Lemma binary_round_aux_valid (M : positive) (e : Z) :
  e <= fexp64 (digits M + e) ->
  binary_round_aux prec emax false (Zpos M) e loc_Exact = S754_zero false
  \/ binary_round_aux prec emax false (Zpos M) e loc_Exact
     = S754_infinity false
  \/ exists (k : positive) (e' : Z),
       binary_round_aux prec emax false (Zpos M) e loc_Exact
       = S754_finite false k e'
       /\ bounded prec emax k e' = true.
Proof.
  intros Hfexp. unfold binary_round_aux, shr_fexp.
  cbn [Zdigits2 shr_record_of_loc]. fold (digits M). rewrite !fexp_fexp64.
  set (n1 := fexp64 (digits M + e) - e).
  assert (Hn1 : 0 <= n1) by (unfold n1; lia).
  pose proof (shr_value {| shr_m := Zpos M; shr_r := false; shr_s := false |}
                e n1 ltac:(cbn; lia) Hn1) as [Hm1 He1].
  destruct (shr _ e n1) as [mrs1 e1]. cbn [fst snd shr_m] in Hm1, He1.
  assert (H2 : 0 < 2 ^ n1) by (apply Z.pow_pos_nonneg; lia).
  assert (Hm1nn : 0 <= shr_m mrs1) by (rewrite Hm1; apply Z.div_pos; lia).
  assert (He1' : e1 = fexp64 (digits M + e)) by (unfold n1 in He1; lia).
  assert (He1min : -1074 <= e1) by (unfold fexp64 in He1'; lia).
  assert (Hcase : (shr_m mrs1 = 0 /\ e1 = -1074)
                  \/ exists p1 : positive,
                       shr_m mrs1 = Zpos p1 /\ fexp64 (digits p1 + e1) = e1).
  { destruct (shr_m mrs1) as [|p1|p1] eqn:Hp1; [left|right|lia].
    - split; [done|]. symmetry in Hm1.
      apply Z.div_small_iff in Hm1 as [Hsmall|Hneg]; [|lia..].
      pose proof (digits_spec M) as [Hlo _].
      assert (digits M - 1 < n1) by (apply pow2_lt_inv; lia).
      unfold fexp64 in He1'. unfold n1, fexp64 in *. lia.
    - exists p1. split; [done|].
      rewrite (digits_div M p1 n1) by done.
      replace (digits M - n1 + e1) with (digits M + e) by lia. done. }
  set (m2 := round_nearest_even (shr_m mrs1) (loc_of_shr_record mrs1)).
  assert (Hm2 : m2 = shr_m mrs1 \/ m2 = shr_m mrs1 + 1)
    by apply round_nearest_even_step.
  destruct m2 as [|p2|p2] eqn:Hp2; [|  |lia].
  { left. cbn [Zdigits2]. rewrite shr_nonpositive; [done|].
    rewrite fexp_fexp64. unfold fexp64. lia. }
  right. cbn [Zdigits2]. fold (digits p2). rewrite fexp_fexp64.
  assert (Hshape : (fexp64 (digits p2 + e1) = e1)
                   \/ (Zpos p2 = 2 ^ 53 /\ fexp64 (digits p2 + e1) = e1 + 1)).
  { destruct Hcase as [[Hz He]|(p1 & Hp1 & Hcan)].
    - rewrite Hz in Hm2. assert (p2 = 1%positive) as -> by lia.
      left. rewrite He. reflexivity.
    - rewrite Hp1 in Hm2. destruct Hm2 as [Hsame|Hsucc].
      + left. by assert (p2 = p1) as -> by lia.
      + destruct (digits_succ p1 p2 Hsucc) as [Hd|[Hpow Hd]]; rewrite Hd.
        * by left.
        * pose proof (digits_positive p1).
          destruct (Z.eq_dec (digits p1) 53) as [H53|Hn53].
          -- right. rewrite Hpow, H53. split; [done|].
             unfold fexp64 in *. lia.
          -- left. unfold fexp64 in *. lia. }
  destruct Hshape as [Hcan|[Hpow Hcan]].
  - rewrite Hcan, Z.sub_diag. cbn [shr shr_m].
    destruct (e1 <=? emax - prec) eqn:Hmax; [right|by left].
    exists p2, e1. split; [done|]. apply bounded_spec. split; [done|].
    apply Z.leb_le in Hmax. done.
  - rewrite Hcan. replace (e1 + 1 - e1) with 1 by lia.
    rewrite Hpow. change (2 ^ 53) with (2 ^ 52 * 2 ^ 1).
    rewrite shr_exact by lia. cbn [shr_m].
    change (2 ^ 52) with (Zpos 4503599627370496).
    destruct (e1 + 1 <=? emax - prec) eqn:Hmax; [right|by left].
    exists 4503599627370496%positive, (e1 + 1). split; [done|].
    apply bounded_spec. apply Z.leb_le in Hmax.
    split; [|done]. change (digits 4503599627370496) with 53.
    unfold fexp64. lia.
Qed.

(** The scaled magnitude [abs(decimal) * 3600] is a well-formed double
    whenever it is finite. *)
Lemma scaled_magnitude_plain (decimal : float) :
  is_finite decimal = true ->
  is_finite (fmul (fabs decimal) (round_Z 3600)) = true ->
  plain_nonneg (fmul (fabs decimal) (round_Z 3600)).
Proof.
  destruct decimal as [s| | |s m e]; try discriminate; intros _.
  { intros _. by left. }
  change (fmul (fabs (S754_finite s m e)) (round_Z 3600))
    with (binary_round_aux prec emax false
            (Zpos (m * 7916483719987200)) (e + -41) loc_Exact).
  assert (Hpre : e + -41
                 <= fexp64 (digits (m * 7916483719987200) + (e + -41))).
  { pose proof (digits_spec m) as [Hlo _].
    pose proof (digits_spec (m * 7916483719987200)) as [_ Hhi].
    pose proof (digits_positive m).
    assert (2 ^ (digits m - 1 + 52) < 2 ^ digits (m * 7916483719987200)).
    { rewrite Z.pow_add_r by lia. rewrite Pos2Z.inj_mul in Hhi.
      change (2 ^ 52) with 4503599627370496. nia. }
    apply pow2_lt_inv in H0; [|unfold digits; lia].
    unfold fexp64. lia. }
  destruct (binary_round_aux_valid _ _ Hpre)
    as [->|[->|(k & e' & -> & Hb)]]; [by left|discriminate|].
  intros _. right. eauto.
Qed.

Lemma Qvalue_bound (x : float) (v : Z) :
  holds x v -> (Qvalue x < inject_Z (2 ^ 53))%Q -> v < 2 ^ 1127.
Proof.
  intros Hx Hlt. rewrite (Qvalue_holds x v Hx) in Hlt.
  assert (HU : (0 < inject_Z (2 ^ 1074))%Q).
  { change 0%Q with (inject_Z 0). rewrite <- Zlt_Qlt.
    apply Z.pow_pos_nonneg; lia. }
  apply (Qmult_lt_r _ _ _ HU) in Hlt.
  rewrite Qmult_comm, Qmult_div_r in Hlt by (by apply Qnot_eq_sym, Qlt_not_eq).
  rewrite <- inject_Z_mult, <- Zlt_Qlt in Hlt.
  by change (2 ^ 53 * 2 ^ 1074) with (2 ^ 1127) in Hlt.
Qed.

Lemma Qvalue_units (x : float) (n : Z) :
  holds x (n * 2 ^ 1074) -> (Qvalue x == inject_Z n)%Q.
Proof.
  intros Hx. rewrite (Qvalue_holds x _ Hx), inject_Z_mult.
  apply Qdiv_mult_l. change 0%Q with (inject_Z 0).
  rewrite inject_Z_injective. apply Z.pow_nonzero; lia.
Qed.


(** At 1e308 the scaled magnitude overflows and every component is NaN. *)
Lemma overflowing_angle_gives_nan :
  decimal_degrees_to_minutes_seconds overflowing_angle
  = Return (S754_nan, S754_nan, S754_nan).
Proof. vm_compute. reflexivity. Qed.



(** ** The reader: when it returns and how it fails *)

Lemma float_of_str_Raise (s : string) (e : exn) :
  float_of_str s = Raise e -> e = ValueError.
Proof.
  unfold float_of_str.
  destruct (drop_underscores Ascii.zero (strip s)) as [t|]; [|congruence].
  destruct (read_sign t) as [neg body].
  destruct (_ || _); [discriminate|].
  destruct (String.eqb _ _); [discriminate|].
  destruct (span is_digit body) as [ip r1].
  destruct (match r1 with EmptyString => _ | String _ _ => _ end) as [fp r2].
  destruct (_ && _); [congruence|].
  destruct (read_exponent r2); [discriminate|congruence].
Qed.

Lemma float_item_Raise (line key : string) (e : exn) :
  float_item (read_line_attributes line) key = Raise e ->
  (e = KeyError key /\ read_line_attributes line !! key = None)
  \/ (e = ValueError /\ not_numeric line key).
Proof.
  unfold float_item, getitem, not_numeric.
  destruct (read_line_attributes line !! key) as [v|]; cbn.
  - intros Hv. pose proof (float_of_str_Raise _ _ Hv) as ->. right. eauto.
  - intros [= <-]. by left.
Qed.

Lemma float_item_not_numeric (line key : string) :
  not_numeric line key ->
  float_item (read_line_attributes line) key = Raise ValueError.
Proof. intros (v & Hv & Hf). unfold float_item, getitem. by rewrite Hv. Qed.

Lemma float_item_cases (line key : string) :
  (exists x, attr_float line key = Some x
             /\ float_item (read_line_attributes line) key = Return x)
  \/ (exists e, float_item (read_line_attributes line) key = Raise e
                /\ ((e = KeyError key
                     /\ read_line_attributes line !! key = None)
                    \/ (e = ValueError /\ not_numeric line key))).
Proof.
  destruct (float_item (read_line_attributes line) key) as [x|e] eqn:Hf.
  - left. exists x. split; [by apply float_item_Return|reflexivity].
  - right. exists e. split; [reflexivity|by apply float_item_Raise].
Qed.

Lemma loop_body_first_invalid (result : list ImageData) (line key : string)
    (count inc_frames : Z) :
  inc_frames <> 0 -> aligned count inc_frames = true ->
  first_invalid line key ->
  loop_body result line count inc_frames = Raise ValueError.
Proof.
  intros Hinc Ha Hbad. pose proof Hinc as Hinc'%Z.eqb_neq.
  pose proof Ha as Ha'. unfold aligned in Ha'.
  destruct Hbad as [Hk|[la Hla] Hk|[la Hla] [lo Hlo] Hn Hk
                   |[la Hla] [lo Hlo] Hn [al Hal] Hk].
  - unfold loop_body, selected, int_mod. rewrite Hinc'. cbn. rewrite Ha'.
    by rewrite (float_item_not_numeric _ _ Hk).
  - unfold loop_body, selected, new_image_data, int_mod.
    rewrite Hinc'. cbn. rewrite Ha'.
    rewrite (float_item_attr_float _ _ _ Hla), (float_item_not_numeric _ _ Hk).
    cbn. by destruct (feqb la fzero).
  - unfold loop_body.
    rewrite (selected_not_sentinel _ _ _ la lo) by assumption.
    unfold new_image_data.
    rewrite (float_item_attr_float _ _ _ Hla),
      (float_item_attr_float _ _ _ Hlo), (float_item_not_numeric _ _ Hk).
    reflexivity.
  - unfold loop_body.
    rewrite (selected_not_sentinel _ _ _ la lo) by assumption.
    unfold new_image_data.
    rewrite (float_item_attr_float _ _ _ Hla),
      (float_item_attr_float _ _ _ Hlo), (float_item_attr_float _ _ _ Hal),
      (float_item_not_numeric _ _ Hk).
    reflexivity.
Qed.

Lemma expected_one (inc_frames count : Z) (line : string) :
  expected inc_frames count [line]
  = match sample count line with
    | Some d => if aligned count inc_frames && negb (is_sentinel line)
                then [d] else []
    | None => []
    end.
Proof.
  cbn [expected]. destruct (sample count line); [|done].
  by destruct (_ && _).
Qed.

Lemma loop_body_passable (result : list ImageData) (line : string)
    (count inc_frames : Z) :
  inc_frames <> 0 -> passable inc_frames count line ->
  loop_body result line count inc_frames
  = Return (result ++ expected inc_frames count [line])%list.
Proof.
  intros Hinc Hpass.
  pose proof (scan_expected inc_frames [line] count result Hinc) as Hscan.
  cbn [scan] in Hscan.
  destruct (loop_body result line count inc_frames) as [r|e] eqn:Hbody.
  - rewrite <- Hscan; [reflexivity|].
    intros [|i] l Hi; [|done]. injection Hi as <-. by rewrite Z.add_0_r.
  - exfalso.
    enough (Raise e
            = Return (result ++ expected inc_frames count [line])%list)
      by discriminate.
    apply Hscan. intros [|i] l Hi; [|done]. injection Hi as <-.
    by rewrite Z.add_0_r.
Qed.

(** Every pass ends in one of the four ways. *)
Lemma loop_body_pass (result : list ImageData) (line : string)
    (count inc_frames : Z) :
  pass_result result line count inc_frames
    (loop_body result line count inc_frames).
Proof.
  destruct (decide (inc_frames = 0)) as [->|Hinc].
  { replace (loop_body result line count 0) with
      (Raise ZeroDivisionError : outcome (list ImageData)) by reflexivity.
    by constructor. }
  assert (Hskip : passable inc_frames count line ->
            pass_result result line count inc_frames
              (loop_body result line count inc_frames)).
  { intros Hp. rewrite loop_body_passable by done. by apply pass_skip. }
  destruct (aligned count inc_frames) eqn:Ha.
  2:{ apply Hskip. left. done. }
  assert (Hmiss : forall key, first_missing line key ->
            pass_result result line count inc_frames
              (loop_body result line count inc_frames)).
  { intros key Hk. rewrite (loop_body_first_missing _ _ key) by done.
    by apply pass_missing. }
  assert (Hbad : forall key, first_invalid line key ->
            pass_result result line count inc_frames
              (loop_body result line count inc_frames)).
  { intros key Hk. rewrite (loop_body_first_invalid _ _ key) by done.
    by apply (pass_invalid _ _ _ _ key). }
  destruct (float_item_cases line "latitude")
    as [(la & Hla & _)|(e & _ & [[-> Hk]|[-> Hk]])];
    [|apply (Hmiss "latitude"); by constructor
     |apply (Hbad "latitude"); by constructor].
  destruct (float_item_cases line "longitude")
    as [(lo & Hlo & _)|(e & _ & [[-> Hk]|[-> Hk]])];
    [|apply (Hmiss "longitude"); by constructor
     |apply (Hbad "longitude"); by constructor].
  destruct (is_sentinel line) eqn:Hs.
  { apply Hskip. right; left. done. }
  destruct (float_item_cases line "abs_alt")
    as [(al & Hal & _)|(e & _ & [[-> Hk]|[-> Hk]])];
    [|apply (Hmiss "abs_alt"); by constructor
     |apply (Hbad "abs_alt"); by constructor].
  destruct (float_item_cases line "focal_len")
    as [(fo & Hfo & _)|(e & _ & [[-> Hk]|[-> Hk]])];
    [|apply (Hmiss "focal_len"); by constructor
     |apply (Hbad "focal_len"); by constructor].
  apply Hskip. right; right. unfold sample. rewrite Hla, Hlo, Hal, Hfo.
  by eexists.
Qed.




Lemma scan_Return (inc_frames : Z) (lines : list string) (count : Z)
    (result samples : list ImageData) :
  scan inc_frames count result lines = Return samples ->
  (lines = [] \/ inc_frames <> 0)
  /\ forall (i : nat) (l : string),
       lines !! i = Some l -> passable inc_frames (count + Z.of_nat i) l.
Proof.
  revert count result. induction lines as [|l rest IH]; intros count result.
  { intros _. split; [by left|]. by intros i l ?. }
  cbn [scan].
  destruct (loop_body result l count inc_frames) as [r|e'] eqn:Hbody;
    [|discriminate].
  pose proof (loop_body_pass result l count inc_frames) as Hp.
  rewrite Hbody in Hp. inversion Hp as [|Hinc Hpass Heq| |].
  intros [_ Hrest]%IH. split; [by right|].
  intros [|i] l' Hi.
  - injection Hi as <-. by rewrite Z.add_0_r.
  - replace (count + Z.of_nat (S i)) with (count + 1 + Z.of_nat i) by lia.
    by apply Hrest.
Qed.

(** X1: The reader returns exactly when the log has no attribute line or the
    increment is not 0 and every attribute line is skipped by the increment,
    or reports (0.0, 0.0), or is complete; what it returns is then the
    samples of the qualifying lines. *)
Theorem X1_reader_returns_iff (content : string) (inc_frames : Z)
    (samples : list ImageData) :
  get_meta_info content inc_frames = Some (Return samples) <->
  samples = expected inc_frames 0 (attribute_lines content)
  /\ (attribute_lines content = [] \/ inc_frames <> 0)
  /\ forall (i : nat) (l : string),
       attribute_lines content !! i = Some l ->
       passable inc_frames (Z.of_nat i) l.
Proof.
  rewrite get_meta_info_scan. split.
  - intros [= Hscan]. pose proof (scan_Return _ _ _ _ _ Hscan) as [Hinc Hpass].
    assert (Hpass' : forall (i : nat) (l : string),
              attribute_lines content !! i = Some l ->
              passable inc_frames (Z.of_nat i) l).
    { intros i l Hi. specialize (Hpass i l Hi). by rewrite Z.add_0_l in Hpass. }
    split; [|done].
    destruct Hinc as [Hnil|Hinc].
    + rewrite Hnil in Hscan |- *. cbn in Hscan |- *. congruence.
    + rewrite scan_expected in Hscan; [cbn in Hscan; congruence|done|].
      intros i l Hi. rewrite Z.add_0_l. by apply Hpass'.
  - intros (-> & [Hnil|Hinc] & Hpass).
    + by rewrite Hnil.
    + rewrite scan_expected; [done|done|].
      intros i l Hi. rewrite Z.add_0_l. by apply Hpass.
Qed.


(** X3: A value that is no float literal stops the run like a missing key
    does: when no earlier frame has stopped it, a frame whose counter is a
    multiple of the nonzero increment and on which the conversion of a
    required value is the first step to fail ends the whole run with
    [ValueError]. *)
Theorem X3_invalid_value_stops_the_run (content : string) (inc_frames : Z)
    (i : nat) (line key : string) :
  inc_frames <> 0 ->
  attribute_lines content !! i = Some line ->
  (forall (j : nat) (l : string),
      (j < i)%nat -> attribute_lines content !! j = Some l ->
      passable inc_frames (Z.of_nat j) l) ->
  aligned (Z.of_nat i) inc_frames = true ->
  first_invalid line key ->
  get_meta_info content inc_frames = Some (Raise ValueError).
Proof.
  intros Hinc Hi Hearlier Ha Hbad. rewrite get_meta_info_scan.
  rewrite <- (take_drop_middle _ _ _ Hi), scan_app.
  rewrite scan_expected; [|assumption|].
  - cbn [scan]. rewrite Z.add_0_l, length_take_le
      by (apply Nat.lt_le_incl; by eapply lookup_lt_Some).
    by rewrite (loop_body_first_invalid _ _ key).
  - intros j l Hj. rewrite Z.add_0_l.
    apply lookup_take_Some in Hj as [Hj Hlt]. by apply Hearlier.
Qed.

(** ** The sign of the increment *)

Lemma aligned_opp (count inc_frames : Z) :
  aligned count (- inc_frames) = aligned count inc_frames.
Proof.
  unfold aligned. destruct (decide (inc_frames = 0)) as [->|Hinc]; [done|].
  apply eq_true_iff_eq. rewrite !Z.eqb_eq.
  rewrite !Z.mod_divide by lia. apply Z.divide_opp_l.
Qed.

Lemma loop_body_opp (result : list ImageData) (line : string)
    (count inc_frames : Z) :
  loop_body result line count (- inc_frames)
  = loop_body result line count inc_frames.
Proof.
  unfold loop_body, selected, int_mod.
  pose proof (aligned_opp count inc_frames) as Ha. unfold aligned in Ha.
  replace (- inc_frames =? 0) with (inc_frames =? 0)
    by (destruct (Z.eqb_spec inc_frames 0), (Z.eqb_spec (- inc_frames) 0); lia).
  destruct (inc_frames =? 0); [done|]. cbn. by rewrite Ha.
Qed.

(** ** What the reader looks at *)

Lemma every_sixth_frames (blocks : list block) (extra : list string) :
  every_sixth
    (drop 4 (map (fun l => l +:+ String LF EmptyString)
               (concat (map block_lines blocks) ++ extra)))
  = (map attribute_line blocks
     ++ every_sixth
          (drop 4 (map (fun l => l +:+ String LF EmptyString) extra)))%list.
Proof.
  induction blocks as [|b rest IH]; [reflexivity|].
  cbn [map concat block_lines app drop].
  rewrite every_sixth_step. cbn [drop]. by rewrite IH.
Qed.

(** X4: Only the fifth line of each frame is looked at: two logs whose
    frames carry the same attribute lines give the same result, whatever
    their ordinals, time ranges, counters, dates and separators. *)
Theorem X4_reader_ignores_other_lines (blocks blocks' : list block)
    (inc_frames : Z) :
  Forall plain_block blocks -> Forall plain_block blocks' ->
  map attributes blocks = map attributes blocks' ->
  get_meta_info (srt_text blocks) inc_frames
  = get_meta_info (srt_text blocks') inc_frames.
Proof.
  intros Hp Hp' Hsame.
  rewrite !get_meta_info_scan, !attribute_lines_srt_text by assumption.
  assert (Hmap : forall bs : list block,
            map attribute_line bs
            = map (fun a => a +:+ String LF EmptyString) (map attributes bs)).
  { intros bs. by rewrite map_map. }
  by rewrite !Hmap, Hsame.
Qed.

(** X5: A log cut off within the first four lines of a frame is read like
    the log without that frame: the unfinished frame is dropped without an
    error. In particular a log of at most four lines gives no sample and no
    error, whatever the increment. *)
Theorem X5_reader_drops_unfinished_frame (blocks : list block)
    (extra : list string) (inc_frames : Z) :
  Forall plain_block blocks ->
  Forall (fun l => is_plain l = true) extra ->
  (length extra <= 4)%nat ->
  get_meta_info (unlines (concat (map block_lines blocks) ++ extra))
    inc_frames
  = get_meta_info (srt_text blocks) inc_frames.
Proof.
  intros Hp Hextra Hlen.
  rewrite !get_meta_info_scan, attribute_lines_srt_text by assumption.
  do 2 f_equal. unfold attribute_lines.
  assert (Hall : Forall (fun l => is_plain l = true)
                   (concat (map block_lines blocks) ++ extra)).
  { apply Forall_app. split; [by apply plain_blocks_lines|done]. }
  rewrite open_unlines, readlines_unlines, every_sixth_frames by assumption.
  rewrite drop_ge by (by rewrite length_map). cbn [every_sixth].
  by rewrite app_nil_r.
Qed.

(** X6: The samples of a log are those of any of its beginnings followed by
    samples of the later frames. *)
Theorem X6_reader_extends_prefix (blocks more : list block) (inc_frames : Z)
    (samples : list ImageData) :
  Forall plain_block blocks -> Forall plain_block more ->
  get_meta_info (srt_text (blocks ++ more)) inc_frames
  = Some (Return samples) ->
  exists earlier later : list ImageData,
    get_meta_info (srt_text blocks) inc_frames = Some (Return earlier)
    /\ samples = (earlier ++ later)%list
    /\ Forall (fun d => Z.of_nat (length blocks) <= frame_num d) later.
Proof.
  intros Hp Hm.
  assert (Hall : Forall plain_block (blocks ++ more))
    by (apply Forall_app; by split).
  rewrite !get_meta_info_scan, !attribute_lines_srt_text by assumption.
  rewrite map_app, scan_app.
  destruct (scan inc_frames 0 [] (map attribute_line blocks))
    as [earlier|] eqn:Hscan; [|discriminate].
  intros [= (later & -> & Hlater)%scan_inv].
  exists earlier, later. split; [done|]. split; [done|].
  apply Forall_forall. intros d (i & l & _ & _ & _ & Hs)%Hlater.
  apply sample_frame_num in Hs. rewrite length_map in Hs. lia.
Qed.

(** X7: An error met in a beginning of the log is the error of the whole
    log: later frames are not read. *)
Theorem X7_reader_error_is_final (blocks more : list block) (inc_frames : Z)
    (e : exn) :
  Forall plain_block blocks -> Forall plain_block more ->
  get_meta_info (srt_text blocks) inc_frames = Some (Raise e) ->
  get_meta_info (srt_text (blocks ++ more)) inc_frames = Some (Raise e).
Proof.
  intros Hp Hm.
  assert (Hall : Forall plain_block (blocks ++ more))
    by (apply Forall_app; by split).
  rewrite !get_meta_info_scan, !attribute_lines_srt_text by assumption.
  rewrite map_app, scan_app. by intros [= ->].
Qed.

(** ** Line terminators *)

Lemma get_meta_info_open (content content' : string) (inc_frames : Z) :
  open content = open content' ->
  get_meta_info content inc_frames = get_meta_info content' inc_frames.
Proof. unfold get_meta_info. by intros ->. Qed.

Lemma translate_newlines_crlf (l rest : string) :
  is_plain l = true ->
  translate_newlines (l +:+ CRLF +:+ rest)
  = l +:+ String LF (translate_newlines rest).
Proof.
  induction l as [|c r IH]; intros Hp.
  { reflexivity. }
  cbn [is_plain] in Hp. apply andb_true_iff in Hp as [Hc Hr].
  apply andb_true_iff in Hc as [_ Hcr]. apply negb_true_iff in Hcr.
  rewrite !string_app_cons. cbn [translate_newlines].
  by rewrite Hcr, IH.
Qed.

Lemma translate_newlines_cr (l rest : string) :
  is_plain l = true ->
  match rest with
  | String d _ => Ascii.eqb d LF = false
  | EmptyString => True
  end ->
  translate_newlines (l +:+ CR_only +:+ rest)
  = l +:+ String LF (translate_newlines rest).
Proof.
  induction l as [|c r IH]; intros Hp Hrest.
  { change (EmptyString +:+ CR_only +:+ rest) with (String CR rest).
    cbn [translate_newlines]. rewrite Ascii.eqb_refl.
    destruct rest as [|d rest']; [reflexivity|]. by rewrite Hrest. }
  cbn [is_plain] in Hp. apply andb_true_iff in Hp as [Hc Hr].
  apply andb_true_iff in Hc as [_ Hcr]. apply negb_true_iff in Hcr.
  rewrite !string_app_cons. cbn [translate_newlines].
  by rewrite Hcr, IH.
Qed.

Lemma join_lines_cr_head (ls : list string) :
  Forall (fun l => is_plain l = true) ls ->
  match join_lines CR_only ls with
  | String d _ => Ascii.eqb d LF = false
  | EmptyString => True
  end.
Proof.
  destruct 1 as [|l rest Hl _]; [done|]. cbn [join_lines].
  destruct l as [|c r]; [done|]. rewrite !string_app_cons.
  cbn [is_plain] in Hl. apply andb_true_iff in Hl as [Hc _].
  apply andb_true_iff in Hc as [Hlf _]. by apply negb_true_iff in Hlf.
Qed.

(** X8: The log may end its lines with a line feed, with a carriage return
    and a line feed, or with a carriage return alone: the reader sees the
    same lines. *)
Theorem X8_reader_accepts_any_line_ending (ls : list string) (inc_frames : Z) :
  Forall (fun l => is_plain l = true) ls ->
  get_meta_info (join_lines CRLF ls) inc_frames
  = get_meta_info (unlines ls) inc_frames
  /\ get_meta_info (join_lines CR_only ls) inc_frames
     = get_meta_info (unlines ls) inc_frames.
Proof.
  intros Hp. split; apply get_meta_info_open; rewrite open_unlines by done;
    unfold open.
  - induction Hp as [|l rest Hl _ IH]; [reflexivity|].
    cbn [join_lines unlines]. rewrite <- string_app_assoc.
    rewrite string_app_assoc, translate_newlines_crlf by done.
    by rewrite IH.
  - induction Hp as [|l rest Hl Hrest IH]; [reflexivity|].
    cbn [join_lines unlines].
    rewrite translate_newlines_cr, IH; [done..|].
    by apply join_lines_cr_head.
Qed.

(** ** The attribute parser *)

Lemma span_spec (p : ascii -> bool) (s a b : string) :
  span p s = (a, b) ->
  s = a +:+ b /\ all_chars p a = true /\ stops p b.
Proof.
  revert a b. induction s as [|c r IH]; intros a b; cbn [span].
  { by intros [= <- <-]. }
  destruct (p c) eqn:Hc.
  - destruct (span p r) as [a' b'] eqn:Hr. intros [= <- <-].
    destruct (IH a' b' eq_refl) as (-> & Ha & Hb).
    rewrite string_app_cons. cbn [all_chars]. by rewrite Hc.
  - by intros [= <- <-].
Qed.

Lemma span_app (p : ascii -> bool) (a b : string) :
  all_chars p a = true -> stops p b -> span p (a +:+ b) = (a, b).
Proof.
  induction a as [|c r IH]; intros Ha Hb.
  - rewrite string_app_nil_l. destruct b as [|d b']; [reflexivity|].
    cbn [span]. cbn in Hb. by rewrite Hb.
  - cbn [all_chars] in Ha. apply andb_true_iff in Ha as [Hc Hr].
    rewrite string_app_cons. cbn [span]. by rewrite Hc, IH.
Qed.

Lemma string_length_app (a b : string) :
  String.length (a +:+ b) = (String.length a + String.length b)%nat.
Proof.
  induction a as [|c r IH]; [reflexivity|].
  rewrite string_app_cons. cbn [String.length]. by rewrite IH.
Qed.

Lemma match_here_Some (s key val : string) (len : nat) :
  match_here s = Some (key, val, len) ->
  is_key key = true /\ is_value val = true
  /\ len = (String.length key + 2 + String.length val)%nat
  /\ exists (sp : ascii) (after : string),
       is_space sp = true /\ stops is_value_char after
       /\ s = key +:+ String ":" (String sp (val +:+ after)).
Proof.
  unfold match_here, is_key, is_value.
  destruct (span is_word s) as [k r1] eqn:Hk.
  apply span_spec in Hk as (-> & Hk & _).
  destruct (is_empty k) eqn:Hke; [discriminate|].
  destruct r1 as [|colon [|sp r2]]; [discriminate..|].
  destruct (code colon =? 58)%N eqn:Hcolon; [|discriminate].
  destruct (is_space sp) eqn:Hsp; [|discriminate]. cbn [andb].
  destruct (span is_value_char r2) as [v after] eqn:Hv.
  apply span_spec in Hv as (-> & Hv & Hafter).
  destruct (is_empty v) eqn:Hve; [discriminate|].
  intros [= <- <- <-]. rewrite Hke, Hve, Hk, Hv.
  do 3 (split; [reflexivity|]). exists sp, after.
  do 2 (split; [assumption|]).
  apply N.eqb_eq in Hcolon.
  assert (colon = ":"%char) as ->; [|reflexivity].
  rewrite <- (ascii_N_embedding colon). unfold code in Hcolon.
  by rewrite Hcolon.
Qed.

Lemma match_here_intro (key val after : string) (sp : ascii) :
  is_key key = true -> is_value val = true -> is_space sp = true ->
  stops is_value_char after ->
  match_here (key +:+ String ":" (String sp (val +:+ after)))
  = Some (key, val, (String.length key + 2 + String.length val)%nat).
Proof.
  unfold is_key, is_value.
  intros [Hke Hk]%andb_true_iff [Hve Hv]%andb_true_iff Hsp Hafter.
  apply negb_true_iff in Hke, Hve.
  unfold match_here. rewrite span_app by done. rewrite Hke, Hsp.
  replace (code ":" =? 58)%N with true by reflexivity. cbn [andb].
  by rewrite span_app, Hve by done.
Qed.

Lemma findall_from_skip (a s : string) :
  findall_from (String.length a) (a +:+ s) = findall_from O s.
Proof.
  induction a as [|c r IH].
  - rewrite string_app_nil_l. cbn [String.length]. reflexivity.
  - rewrite string_app_cons. cbn [String.length findall_from]. apply IH.
Qed.

Lemma findall_from_nonword (c : ascii) (r : string) :
  is_word c = false -> findall_from O (String c r) = findall_from O r.
Proof.
  intros Hc. cbn [findall_from]. unfold match_here. cbn [span].
  by rewrite Hc.
Qed.

(** Where the scan goes on after a match. *)
Lemma findall_from_match (key val after : string) (sp : ascii) :
  is_key key = true -> is_value val = true -> is_space sp = true ->
  stops is_value_char after ->
  findall_from O (key +:+ String ":" (String sp (val +:+ after)))
  = (key, val) :: findall_from O after.
Proof.
  intros Hk Hv Hsp Hafter.
  pose proof (match_here_intro key val after sp Hk Hv Hsp Hafter) as Hm.
  destruct key as [|c k']; [discriminate|].
  rewrite string_app_cons in Hm |- *. cbn [findall_from]. rewrite Hm.
  f_equal. cbn [String.length Nat.add Nat.pred].
  replace (k' +:+ String ":" (String sp (val +:+ after)))
    with ((k' +:+ String ":" (String sp val)) +:+ after).
  2:{ by rewrite string_app_assoc, !string_app_cons. }
  replace (String.length k' + 2 + String.length val)%nat
    with (String.length (k' +:+ String ":" (String sp val))).
  2:{ rewrite string_length_app. cbn [String.length]. lia. }
  apply findall_from_skip.
Qed.

(** Every pair found is a match of the pattern somewhere on the line. *)
Lemma findall_from_elem (skip : nat) (s key val : string) :
  (key, val) ∈ findall_from skip s ->
  is_key key = true /\ is_value val = true
  /\ exists (before : string) (sp : ascii) (after : string),
       is_space sp = true
       /\ s = before +:+ key +:+ String ":" (String sp (val +:+ after)).
Proof.
  revert skip. induction s as [|c r IH]; intros skip.
  { cbn. by intros ?%elem_of_nil. }
  assert (Hlater : forall n, (key, val) ∈ findall_from n r ->
            is_key key = true /\ is_value val = true
            /\ exists (before : string) (sp : ascii) (after : string),
                 is_space sp = true
                 /\ String c r
                    = before +:+ key
                      +:+ String ":" (String sp (val +:+ after))).
  { intros n (Hk & Hv & before & sp & after & Hsp & ->)%IH.
    do 2 (split; [assumption|]).
    exists (String c before), sp, after. by rewrite string_app_cons. }
  cbn [findall_from]. destruct skip as [|n]; [|apply Hlater].
  destruct (match_here (String c r)) as [[[k v] len]|] eqn:Hm;
    [|apply Hlater].
  intros [[= -> ->]|Hin]%elem_of_cons; [|by apply (Hlater (Nat.pred len))].
  apply match_here_Some in Hm as (Hk & Hv & _ & sp & after & Hsp & _ & ->).
  do 2 (split; [assumption|]). exists EmptyString, sp, after.
  by rewrite string_app_nil_l.
Qed.

Lemma fold_insert_lookup (pairs : list (string * string))
    (m : gmap string string) (key : string) :
  fold_left (fun ret kv => <[fst kv := snd kv]> ret) pairs m !! key
  = match last_value key pairs with
    | Some w => Some w
    | None => m !! key
    end.
Proof.
  revert m. induction pairs as [|[k v] rest IH]; intros m; [reflexivity|].
  cbn [fold_left last_value fst snd]. rewrite IH.
  destruct (last_value key rest); [reflexivity|].
  destruct (String.eqb_spec k key) as [->|Hne].
  - by rewrite lookup_insert_eq.
  - by rewrite lookup_insert_ne.
Qed.

Lemma last_value_elem (key val : string) (pairs : list (string * string)) :
  last_value key pairs = Some val -> (key, val) ∈ pairs.
Proof.
  induction pairs as [|[k v] rest IH]; [discriminate|]. cbn [last_value].
  destruct (last_value key rest) as [w|].
  - intros [= ->]. apply elem_of_cons. right. by apply IH.
  - destruct (String.eqb_spec k key) as [->|]; [|discriminate].
    intros [= ->]. apply elem_of_cons. by left.
Qed.

(** X9: The dictionary of a line holds, for each key, the value of its last
    match on the line. *)
Theorem X9_last_occurrence_wins (line key : string) :
  read_line_attributes line !! key = last_value key (findall line).
Proof.
  unfold read_line_attributes. rewrite fold_insert_lookup.
  by destruct (last_value key (findall line)).
Qed.

(** X10: Whatever the line, an entry of its dictionary is a match of the
    pattern on the line: the key is a non-empty run of word characters,
    followed on the line by a colon, one white-space character and the
    value, a non-empty run without white space and square brackets. *)
Theorem X10_stored_attributes_are_matches (line key val : string) :
  read_line_attributes line !! key = Some val ->
  is_key key = true /\ is_value val = true
  /\ exists (before : string) (sp : ascii) (after : string),
       is_space sp = true
       /\ line = before +:+ key +:+ String ":" (String sp (val +:+ after)).
Proof.
  unfold read_line_attributes. rewrite fold_insert_lookup.
  destruct (last_value key (findall line)) as [w|] eqn:Hlast;
    [|by rewrite lookup_empty].
  intros [= ->]. apply last_value_elem in Hlast.
  by apply (findall_from_elem O).
Qed.

Lemma findall_render (pairs : list (string * string)) (tail : string) :
  Forall (fun kv => is_key (fst kv) = true /\ is_value (snd kv) = true)
    pairs ->
  findall (render_attributes pairs +:+ tail) = (pairs ++ findall tail)%list.
Proof.
  unfold findall. induction 1 as [|[k v] rest [Hk Hv] _ IH]; [reflexivity|].
  cbn [render_attributes app]. unfold render_attribute. cbn [fst snd] in *.
  rewrite !string_app_assoc, !string_app_cons, !string_app_nil_l.
  rewrite findall_from_nonword by reflexivity.
  rewrite findall_from_match by done.
  rewrite !findall_from_nonword by reflexivity. by rewrite IH.
Qed.

(** X11: Reading back a line written as [[key: value]] items: the dictionary
    holds each key with the value of its last item. *)
Theorem X11_rendered_attributes_read_back (pairs : list (string * string))
    (tail key : string) :
  Forall (fun kv => is_key (fst kv) = true /\ is_value (snd kv) = true)
    pairs ->
  findall tail = [] ->
  read_line_attributes (render_attributes pairs +:+ tail) !! key
  = last_value key pairs.
Proof.
  intros Hp Htail. unfold read_line_attributes.
  rewrite fold_insert_lookup, findall_render, Htail, app_nil_r by done.
  by destruct (last_value key pairs).
Qed.

(** ** The increment *)

Lemma fmul_one (x : float) :
  valid_binary prec emax x = true -> fmul x (round_Z 1) = x.
Proof.
  change (round_Z 1) with (S754_finite false 4503599627370496 (-52)).
  destruct x as [[]|[]| |s m e]; try reflexivity. cbn [valid_binary].
  intros Hb. unfold fmul, SFmul.
  change (Zpos (m * 4503599627370496)) with (Zpos m * 2 ^ 52).
  rewrite xorb_false_r, binary_round_aux_exact;
    [f_equal; lia|lia|by replace (e + -52 + 52) with e by lia].
Qed.

Lemma Qtruncate_finite (s : bool) (m : positive) (e : Z) :
  cond_Zopp s (Qfloor (Qvalue (S754_finite false m e)))
  = Qtruncate (Qvalue (S754_finite s m e)).
Proof.
  pose proof (Qvalue_positive m e) as Hpos. unfold Qtruncate.
  destruct s; cbn [cond_Zopp].
  - pose proof (Qvalue_opp m e) as Hopp.
    destruct (Qle_bool 0 (Qvalue (S754_finite true m e))) eqn:Hle.
    + apply Qle_bool_iff in Hle. rewrite Hopp in Hle. exfalso.
      apply (Qlt_irrefl 0). eapply Qlt_le_trans; [exact Hpos|].
      apply Qopp_le_compat in Hle. by rewrite Qopp_involutive in Hle.
    + unfold Qceiling. f_equal. apply Qfloor_comp.
      rewrite Hopp. by rewrite Qopp_involutive.
  - apply Qlt_le_weak, Qle_bool_iff in Hpos. by rewrite Hpos.
Qed.

Lemma int_of_float_Qtruncate (x : float) :
  is_finite x = true -> int_of_float x = Return (Qtruncate (Qvalue x)).
Proof.
  destruct x as [s| | |s m e]; try discriminate; intros _; [reflexivity|].
  by rewrite int_of_float_finite, Qtruncate_finite.
Qed.

(** X12: With the default interval of one second the increment is the frame
    rate itself, truncated toward zero to a whole number of frames: the
    multiplication by 1 changes nothing. *)
Theorem X12_default_interval_increment (framerate : float) :
  valid_binary prec emax framerate = true ->
  is_finite framerate = true ->
  calculate_frame_increment (Int DEFAULT_INC_SECONDS) framerate
  = Return (Qtruncate (Qvalue framerate)).
Proof.
  intros Hvalid Hfin. unfold calculate_frame_increment, DEFAULT_INC_SECONDS.
  change (to_float (Int 1)) with (Return (round_Z 1)).
  cbn [mbind outcome_bind]. rewrite fmul_one by assumption.
  by apply int_of_float_Qtruncate.
Qed.

Lemma Qfloor_below_one (q : Q) : (0 <= q)%Q -> (q < 1)%Q -> Qfloor q = 0.
Proof.
  intros H0 H1. pose proof (Qfloor_le q) as Hle.
  apply Qfloor_resp_le in H0. change (Qfloor 0) with 0 in H0.
  assert (Hlt : (inject_Z (Qfloor q) < inject_Z 1)%Q)
    by (by eapply Qle_lt_trans).
  rewrite <- Zlt_Qlt in Hlt. lia.
Qed.

Lemma increment_below_one_frame (seconds : number) (framerate s : float) :
  to_float seconds = Return s ->
  is_finite (fmul framerate s) = true ->
  (- (1) < Qvalue (fmul framerate s))%Q ->
  (Qvalue (fmul framerate s) < 1)%Q ->
  calculate_frame_increment seconds framerate = Return 0.
Proof.
  intros Hs Hfin Hlo Hhi. unfold calculate_frame_increment. rewrite Hs.
  cbn [mbind outcome_bind].
  destruct (fmul framerate s) as [z| | |sg m e]; try discriminate;
    [reflexivity|].
  rewrite int_of_float_finite.
  pose proof (Qvalue_positive m e) as Hpos.
  rewrite Qfloor_below_one; [by destruct sg|by apply Qlt_le_weak|].
  destruct sg; [|done].
  rewrite Qvalue_opp in Hlo. apply Qopp_lt_compat in Hlo.
  by rewrite !Qopp_involutive in Hlo.
Qed.

(** X13: An interval shorter than one frame stops the program: when the
    product of frame rate and interval lies strictly between -1 and 1 the
    increment is 0, and on a log with at least five lines [main] ends with
    [ZeroDivisionError] before any image is written. *)
Theorem X13_interval_below_one_frame_aborts (content mp4_path : string)
    (framerate : float) (seconds : number) (s : float) :
  to_float seconds = Return s ->
  is_finite (fmul framerate s) = true ->
  (- (1) < Qvalue (fmul framerate s))%Q ->
  (Qvalue (fmul framerate s) < 1)%Q ->
  (4 < length (readlines (open content)))%nat ->
  main content mp4_path framerate seconds = Some (Raise ZeroDivisionError).
Proof.
  intros Hs Hfin Hlo Hhi Hlen. unfold main.
  rewrite (increment_below_one_frame seconds framerate s) by assumption.
  rewrite get_meta_info_zero_increment.
  by apply Nat.ltb_lt in Hlen as ->.
Qed.

(** ** The exported files *)

Lemma save_images_total (frames : list ImageData) (video_path : string) :
  exists written : list (string * ExifFields),
    save_images frames video_path = Return written.
Proof.
  destruct (out_prefix_returns video_path) as [stem Hprefix].
  destruct (export_frames_fields (OUTPUT_DIR +:+ stem +:+ "_") frames)
    as (written & Hw & _).
  exists written. unfold save_images. by rewrite Hprefix.
Qed.

(** X14: What [save_images] computes itself raises nothing, whatever the
    path and the samples: the indexing of the split path cannot fail and
    the converter returns for every float.  The calls into the video and
    image libraries aside, it writes one file for each sample, in the
    order of the samples, named after the sample's frame number and
    carrying the sample's fields. *)
Theorem X14_save_images_writes_every_sample (frames : list ImageData)
    (video_path : string) :
  exists (stem : string) (written : list (string * ExifFields)),
    out_prefix video_path = Return (OUTPUT_DIR +:+ stem +:+ "_")
    /\ save_images frames video_path = Return written
    /\ written.*1
       = saved_name (OUTPUT_DIR +:+ stem +:+ "_") <$> frames
    /\ Forall2 (fun frame w => exif_fields frame = Return (snd w))
         frames written.
Proof.
  destruct (out_prefix_returns video_path) as [stem Hprefix].
  destruct (export_frames_fields (OUTPUT_DIR +:+ stem +:+ "_") frames)
    as (written & Hw & Hnames & Hfields).
  exists stem, written. unfold save_images. rewrite Hprefix.
  cbn [mbind outcome_bind]. done.
Qed.

Lemma string_app_inj_r (a b c : string) : a +:+ c = b +:+ c -> a = b.
Proof.
  revert b. induction a as [|x a IH]; intros [|y b] H.
  - reflexivity.
  - rewrite ?string_app_nil_l, ?string_app_cons in H.
    apply (f_equal String.length) in H.
    cbn [String.length] in H. rewrite ?string_length_app in H. lia.
  - rewrite ?string_app_nil_l, ?string_app_cons in H.
    apply (f_equal String.length) in H.
    cbn [String.length] in H. rewrite ?string_length_app in H. lia.
  - rewrite !string_app_cons in H. injection H as -> H. f_equal.
    by apply IH.
Qed.

Lemma str_inj (a b : Z) : str a = str b -> a = b.
Proof.
  unfold str. intros H.
  assert (Hnn : forall n : Z,
            Z.to_int n <> Decimal.Pos Decimal.Nil
            /\ Z.to_int n <> Decimal.Neg Decimal.Nil).
  { intros [|p|p]; cbn [Z.to_int]; split; try discriminate;
      intros [= Hp]; by apply DecimalPos.Unsigned.to_uint_nonnil in Hp. }
  apply (f_equal DecimalString.NilZero.int_of_string) in H.
  destruct (Hnn a) as [Ha1 Ha2]. destruct (Hnn b) as [Hb1 Hb2].
  rewrite !DecimalString.NilZero.isi in H by assumption.
  injection H as H. apply (f_equal Z.of_int) in H.
  by rewrite !DecimalZ.of_to in H.
Qed.

Lemma saved_name_inj (prefix : string) (f1 f2 : ImageData) :
  saved_name prefix f1 = saved_name prefix f2 -> frame_num f1 = frame_num f2.
Proof.
  unfold saved_name. intros H. apply String.app_inj in H.
  by apply string_app_inj_r, str_inj in H.
Qed.

Lemma saved_names_NoDup (prefix : string) (frames : list ImageData) :
  NoDup (frame_num <$> frames) -> NoDup (saved_name prefix <$> frames).
Proof.
  induction frames as [|f rest IH]; [constructor|].
  rewrite !fmap_cons, !NoDup_cons. intros [Hf Hrest]. split; [|by apply IH].
  intros (f' & Heq & Hin)%list_elem_of_fmap. apply Hf.
  apply saved_name_inj in Heq. rewrite Heq. apply list_elem_of_fmap. eauto.
Qed.

(** X15: Samples with different frame numbers are written to different
    files: no export overwrites another. *)
Theorem X15_save_images_never_overwrites (frames : list ImageData)
    (video_path : string) :
  NoDup (frame_num <$> frames) ->
  exists written : list (string * ExifFields),
    save_images frames video_path = Return written
    /\ NoDup written.*1.
Proof.
  intros Hnums.
  destruct (out_prefix_returns video_path) as [stem Hprefix].
  destruct (export_frames_fields (OUTPUT_DIR +:+ stem +:+ "_") frames)
    as (written & Hw & Hnames & _).
  exists written. unfold save_images. rewrite Hprefix.
  cbn [mbind outcome_bind]. split; [done|].
  rewrite Hnames. by apply saved_names_NoDup.
Qed.

Lemma sorted_NoDup (l : list Z) : StronglySorted Z.lt l -> NoDup l.
Proof.
  induction 1 as [|a l _ IH Hall]; [constructor|].
  apply NoDup_cons. split; [|done].
  intros Hin. rewrite Forall_forall in Hall. specialize (Hall a Hin). lia.
Qed.

(** ** The whole run *)

(** X16: When the increment is not 0 and every attribute line is
    passable, [main] (the calls into the video and image libraries aside)
    ends normally and has written one file for each qualifying frame, in
    file order, every file under a name of its own. *)
Theorem X16_main_exports_qualifying_frames (content mp4_path : string)
    (framerate : float) (seconds : number) (inc_frames : Z) :
  calculate_frame_increment seconds framerate = Return inc_frames ->
  inc_frames <> 0 ->
  (forall (i : nat) (l : string),
      attribute_lines content !! i = Some l ->
      passable inc_frames (Z.of_nat i) l) ->
  exists (stem : string) (written : list (string * ExifFields)),
    main content mp4_path framerate seconds = Some (Return written)
    /\ written.*1
       = saved_name (OUTPUT_DIR +:+ stem +:+ "_")
         <$> expected inc_frames 0 (attribute_lines content)
    /\ NoDup written.*1.
Proof.
  intros Hinc Hnz Hpass. unfold main. rewrite Hinc, get_meta_info_scan.
  rewrite scan_expected; [|done|].
  2:{ intros i l Hi. rewrite Z.add_0_l. by apply Hpass. }
  cbn [app mbind outcome_bind].
  set (samples := expected inc_frames 0 (attribute_lines content)).
  destruct (out_prefix_returns mp4_path) as [stem Hprefix].
  destruct (export_frames_fields (OUTPUT_DIR +:+ stem +:+ "_") samples)
    as (written & Hw & Hnames & _).
  exists stem, written. unfold save_images. rewrite Hprefix.
  cbn [mbind outcome_bind]. rewrite Hw, Hnames.
  split; [done|]. split; [done|].
  apply saved_names_NoDup, sorted_NoDup. apply expected_frame_nums.
Qed.

(** X17: The program's own computations fail only before the export: an
    error of [main] is the error of the increment computation or that of
    the reader; nothing [save_images] computes itself raises (the calls
    into the video and image libraries are outside the model). *)
Theorem X17_main_fails_before_export (content mp4_path : string)
    (framerate : float) (seconds : number) (e : exn) :
  main content mp4_path framerate seconds = Some (Raise e) ->
  calculate_frame_increment seconds framerate = Raise e
  \/ exists inc_frames : Z,
       calculate_frame_increment seconds framerate = Return inc_frames
       /\ get_meta_info content inc_frames = Some (Raise e).
Proof.
  unfold main.
  destruct (calculate_frame_increment seconds framerate) as [inc|e0].
  2:{ intros [= ->]. by left. }
  rewrite get_meta_info_scan.
  destruct (scan inc 0 [] (attribute_lines content)) as [samples|e0]
    eqn:Hscan.
  2:{ intros [= ->]. right.
      exists inc. split; [done|]. by rewrite get_meta_info_scan, Hscan. }
  cbn [mbind outcome_bind].
  by destruct (save_images_total samples mp4_path) as [written ->].
Qed.

(** X18: The [while True] loop of the reader stops on every text and for
    every increment, since every turn consumes a line; so the reader
    always comes to an end, and [main] with it. *)
Theorem X18_run_terminates (content mp4_path : string) (framerate : float)
    (seconds : number) (inc_frames : Z) :
  (exists r : outcome (list ImageData),
      get_meta_info content inc_frames = Some r)
  /\ exists r : outcome (list (string * ExifFields)),
       main content mp4_path framerate seconds = Some r.
Proof.
  split; [rewrite get_meta_info_scan; eauto|]. unfold main.
  destruct (calculate_frame_increment seconds framerate) as [inc|e0];
    [|eauto].
  rewrite get_meta_info_scan. eauto.
Qed.

(** ** The components of an angle *)

Lemma Qfloor_units (x : float) (v k : Z) :
  holds x v -> 0 < k ->
  Qfloor (Qvalue x / inject_Z k) = v / (k * 2 ^ 1074).
Proof.
  intros Hx Hk. rewrite Zdiv_Qdiv. apply Qfloor_comp.
  rewrite (Qvalue_holds x v Hx), inject_Z_mult.
  assert (HU : ~ (inject_Z (2 ^ 1074) == 0)%Q).
  { change 0%Q with (inject_Z 0). rewrite inject_Z_injective.
    apply Z.pow_nonzero; lia. }
  assert (Hk' : ~ (inject_Z k == 0)%Q).
  { change 0%Q with (inject_Z 0). rewrite inject_Z_injective. lia. }
  by field.
Qed.

Lemma converter_ignores_sign (decimal : float) :
  decimal_degrees_to_minutes_seconds (SFopp decimal)
  = decimal_degrees_to_minutes_seconds decimal.
Proof. by destruct decimal as [[]|[]| |[] m e]. Qed.

(** X19: In the range where the converter is exact, its results are these:
    with [x] the double computed for [abs(decimal) * 3600], the degrees
    are the whole number [floor(x / 3600)], the minutes the whole number
    [floor(x / 60) mod 60], and the seconds [x - 60 * floor(x / 60)];
    the opposite angle gives the same three values. *)
Theorem X19_degrees_minutes_seconds_values (decimal : float) :
  is_finite decimal = true ->
  is_finite (fmul (fabs decimal) (round_Z 3600)) = true ->
  (Qvalue (fmul (fabs decimal) (round_Z 3600)) < inject_Z (2 ^ 53))%Q ->
  exists deg mnt sec : float,
    decimal_degrees_to_minutes_seconds decimal = Return (deg, mnt, sec)
    /\ decimal_degrees_to_minutes_seconds (SFopp decimal)
       = Return (deg, mnt, sec)
    /\ (Qvalue deg
        == inject_Z
             (Qfloor (Qvalue (fmul (fabs decimal) (round_Z 3600))
                      / inject_Z 3600)))%Q
    /\ (Qvalue mnt
        == inject_Z
             (Qfloor (Qvalue (fmul (fabs decimal) (round_Z 3600))
                      / inject_Z 60) mod 60))%Q
    /\ (Qvalue sec
        == Qvalue (fmul (fabs decimal) (round_Z 3600))
           - inject_Z 60
             * inject_Z
                 (Qfloor (Qvalue (fmul (fabs decimal) (round_Z 3600))
                          / inject_Z 60)))%Q.
Proof.
  intros Hfin Hxfin Hbound.
  pose proof (scaled_magnitude_plain decimal Hfin Hxfin) as Hplain.
  set (x := fmul (fabs decimal) (round_Z 3600)) in *.
  assert (Hx : holds x (scaled x)) by done.
  pose proof (Qvalue_bound x _ Hx Hbound) as Hv.
  pose proof (holds_nonneg x _ Hx) as Hv0.
  destruct (decimal_degrees_exact decimal _ Hx Hv)
    as (deg & mnt & sec & Hrun & Hdeg & Hmnt & Hsec).
  exists deg, mnt, sec. split; [exact Hrun|].
  split; [by rewrite converter_ignores_sign|].
  assert (HU : 0 < 2 ^ 1074) by (apply Z.pow_pos_nonneg; lia).
  rewrite !(Qfloor_units x (scaled x)) by (done || lia).
  set (v := scaled x) in *.
  split; [by apply Qvalue_units|]. split; [by apply Qvalue_units|].
  rewrite (Qvalue_holds sec _ Hsec), (Qvalue_holds x v Hx).
  pose proof (Z.div_mod v (60 * 2 ^ 1074) ltac:(lia)) as Hsplit.
  set (q := v / (60 * 2 ^ 1074)) in *.
  replace (v mod (60 * 2 ^ 1074)) with (v - 60 * q * 2 ^ 1074) by lia.
  assert (HUne : ~ (inject_Z (2 ^ 1074) == 0)%Q).
  { change 0%Q with (inject_Z 0). rewrite inject_Z_injective. lia. }
  unfold Z.sub. rewrite inject_Z_plus, inject_Z_opp, !inject_Z_mult.
  by field.
Qed.

(** ** How many samples *)

Lemma expected_app (inc_frames : Z) (l1 l2 : list string) (count : Z) :
  expected inc_frames count (l1 ++ l2)
  = (expected inc_frames count l1
     ++ expected inc_frames (count + Z.of_nat (length l1)) l2)%list.
Proof.
  revert count. induction l1 as [|l rest IH]; intros count.
  { cbn. by rewrite Z.add_0_r. }
  cbn [app expected length]. rewrite IH.
  replace (count + 1 + Z.of_nat (length rest))
    with (count + Z.of_nat (S (length rest))) by lia.
  destruct (sample count l); [|done]. by destruct (_ && _).
Qed.

Lemma ceiling_step (n inc_frames : Z) :
  0 <= n -> 0 < inc_frames ->
  0 <= (n + inc_frames - 1) / inc_frames
  /\ (n + 1 + inc_frames - 1) / inc_frames
     = (n + inc_frames - 1) / inc_frames
       + (if n mod inc_frames =? 0 then 1 else 0)
  /\ (n mod inc_frames = 0 ->
      (n + inc_frames - 1) / inc_frames * inc_frames = n).
Proof.
  intros Hn Hinc.
  pose proof (Z.div_mod n inc_frames ltac:(lia)) as Hsplit.
  pose proof (Z.mod_pos_bound n inc_frames Hinc) as Hr.
  set (q := n / inc_frames) in *. set (r := n mod inc_frames) in *.
  assert (Hq : 0 <= q) by (apply Z.div_pos; lia).
  destruct (Z.eqb_spec r 0) as [Hz|Hnz].
  - assert (H1 : (n + inc_frames - 1) / inc_frames = q).
    { symmetry. apply (Z.div_unique _ _ q (inc_frames - 1)); lia. }
    assert (H2 : (n + 1 + inc_frames - 1) / inc_frames = q + 1).
    { symmetry. apply (Z.div_unique _ _ (q + 1) 0); lia. }
    rewrite H1, H2. repeat split; lia.
  - assert (H1 : (n + inc_frames - 1) / inc_frames = q + 1).
    { symmetry. apply (Z.div_unique _ _ (q + 1) (r - 1)); lia. }
    assert (H2 : (n + 1 + inc_frames - 1) / inc_frames = q + 1).
    { symmetry. apply (Z.div_unique _ _ (q + 1) r); lia. }
    rewrite H1, H2. repeat split; lia.
Qed.

Lemma expected_frame_numbers (inc_frames : Z) (lines : list string) :
  0 < inc_frames ->
  (forall (i : nat) (l : string),
      lines !! i = Some l -> aligned (Z.of_nat i) inc_frames = true ->
      is_sentinel l = false /\ is_Some (sample (Z.of_nat i) l)) ->
  frame_num <$> expected inc_frames 0 lines
  = (fun k => k * inc_frames)
    <$> seqZ 0 ((Z.of_nat (length lines) + inc_frames - 1) / inc_frames).
Proof.
  intros Hinc. induction lines as [|l lines IH] using rev_ind; intros Hall.
  { cbn [expected length fmap list_fmap]. rewrite Z.div_small by lia.
    reflexivity. }
  rewrite expected_app, fmap_app, IH, Z.add_0_l.
  2:{ intros i l' Hi. apply Hall. by apply lookup_app_l_Some. }
  rewrite length_app. cbn [length].
  set (n := Z.of_nat (length lines)).
  replace (Z.of_nat (length lines + 1)) with (n + 1) by lia.
  destruct (ceiling_step n inc_frames ltac:(lia) Hinc) as (Hc0 & Hstep & Hn).
  rewrite Hstep. cbn [expected].
  specialize (Hall (length lines) l).
  rewrite lookup_app_r, Nat.sub_diag in Hall by lia.
  specialize (Hall eq_refl). fold n in Hall. unfold aligned in Hall |- *.
  destruct (n mod inc_frames =? 0) eqn:Hal.
  - destruct (Hall eq_refl) as [Hs [d Hd]]. rewrite Hd, Hs.
    cbn [andb negb]. rewrite seqZ_app, fmap_app by lia. f_equal.
    apply sample_frame_num in Hd. apply Z.eqb_eq in Hal.
    rewrite Z.add_0_l, seqZ_cons, seqZ_nil by lia.
    cbn [fmap list_fmap]. by rewrite Hd, Hn.
  - rewrite Z.add_0_r.
    destruct (sample n l); cbn [andb]; by rewrite app_nil_r.
Qed.

(** X20: With a positive increment, on a log whose sampled frames are all
    complete and none at (0.0, 0.0), the reader returns the frames numbered
    0, [inc_frames], twice [inc_frames], and so on: as many samples as the
    number of attribute lines divided by the increment, rounded up. *)
Theorem X20_samples_every_increment (content : string) (inc_frames : Z) :
  0 < inc_frames ->
  (forall (i : nat) (l : string),
      attribute_lines content !! i = Some l ->
      aligned (Z.of_nat i) inc_frames = true ->
      is_sentinel l = false /\ is_Some (sample (Z.of_nat i) l)) ->
  exists samples : list ImageData,
    get_meta_info content inc_frames = Some (Return samples)
    /\ frame_num <$> samples
       = (fun k => k * inc_frames)
         <$> seqZ 0 ((Z.of_nat (length (attribute_lines content))
                      + inc_frames - 1) / inc_frames).
Proof.
  intros Hinc Hall. exists (expected inc_frames 0 (attribute_lines content)).
  split; [|by apply expected_frame_numbers].
  rewrite get_meta_info_scan, scan_expected; [done|lia|].
  intros i l Hi. rewrite Z.add_0_l. unfold passable.
  destruct (aligned (Z.of_nat i) inc_frames) eqn:Ha; [|by left].
  right; right. by apply (Hall i l).
Qed.

(** ** A negative interval *)

Lemma binary_round_aux_opp (s : bool) (m e : Z) (l : location) :
  binary_round_aux prec emax (negb s) m e l
  = SFopp (binary_round_aux prec emax s m e l).
Proof.
  unfold binary_round_aux.
  destruct (shr_fexp prec emax m e l) as [mrs e'].
  destruct (shr_fexp prec emax _ e' loc_Exact) as [mrs' e''].
  destruct (shr_m mrs'); [reflexivity| |reflexivity].
  by destruct (e'' <=? emax - prec).
Qed.

Lemma round_Z_opp (n : Z) : n <> 0 -> round_Z (- n) = SFopp (round_Z n).
Proof.
  intros Hn. destruct n as [|p|p]; [done|..].
  - change (- Z.pos p) with (Z.neg p).
    unfold round_Z, binary_normalize, binary_round.
    destruct (shl_align p 0 _) as [mz ez].
    apply (binary_round_aux_opp false).
  - change (- Z.neg p) with (Z.pos p).
    unfold round_Z, binary_normalize, binary_round.
    destruct (shl_align p 0 _) as [mz ez].
    apply (binary_round_aux_opp true).
Qed.

Lemma fmul_opp_r (x y : float) : fmul x (SFopp y) = SFopp (fmul x y).
Proof.
  destruct x as [sx|sx| |sx mx ex], y as [sy|sy| |sy my ey];
    try reflexivity; unfold fmul, SFmul, SFopp;
    rewrite <- ?negb_xorb_r; try reflexivity.
  apply binary_round_aux_opp.
Qed.

Lemma int_of_float_opp (x : float) :
  int_of_float (SFopp x)
  = match int_of_float x with
    | Return n => Return (- n)
    | Raise e => Raise e
    end.
Proof.
  destruct x as [s|s| |s m e]; try reflexivity.
  cbn [SFopp int_of_float]. f_equal. destruct s; cbn [negb cond_Zopp]; lia.
Qed.

Lemma calculate_frame_increment_opp (n : Z) (framerate : float) :
  calculate_frame_increment (Int (- n)) framerate
  = match calculate_frame_increment (Int n) framerate with
    | Return inc_frames => Return (- inc_frames)
    | Raise e => Raise e
    end.
Proof.
  destruct (decide (n = 0)) as [->|Hn].
  { cbn [Z.opp]. by destruct (calculate_frame_increment (Int 0) framerate)
      as [k|] eqn:Hk; [|done]; revert Hk;
      destruct framerate as [[]|[]| |[] m e]; cbn; intros [= <-]. }
  unfold calculate_frame_increment, to_float, float_of_int.
  rewrite round_Z_opp by done.
  destruct (round_Z n) as [s|s| |s m e] eqn:Hr; cbn [SFopp mbind outcome_bind];
    try reflexivity.
  - change (S754_zero (negb s)) with (SFopp (S754_zero s)).
    by rewrite fmul_opp_r, int_of_float_opp.
  - change S754_nan with (SFopp S754_nan) at 1.
    by rewrite fmul_opp_r, int_of_float_opp.
  - change (S754_finite (negb s) m e) with (SFopp (S754_finite s m e)).
    by rewrite fmul_opp_r, int_of_float_opp.
Qed.

Lemma get_meta_info_opp (content : string) (inc_frames : Z) :
  get_meta_info content (- inc_frames) = get_meta_info content inc_frames.
Proof.
  rewrite !get_meta_info_scan. f_equal.
  generalize (attribute_lines content) as lines.
  generalize (@nil ImageData) as result. generalize 0 as count.
  intros count result lines. revert count result.
  induction lines as [|l rest IH]; intros count result; [done|].
  cbn [scan]. rewrite loop_body_opp.
  destruct (loop_body result l count inc_frames); [apply IH|done].
Qed.

(** X21: A negative increment samples the same frames as its absolute value:
    only divisibility of the counter matters. *)
Theorem X21_negative_increment_same_samples (content : string)
    (inc_frames : Z) :
  get_meta_info content (- inc_frames) = get_meta_info content inc_frames.
Proof. apply get_meta_info_opp. Qed.

(** X22: An interval with a minus sign runs like the interval without it:
    the increment changes sign and the reader tests divisibility only. *)
Theorem X22_negative_interval_same_run (content mp4_path : string)
    (framerate : float) (n : Z) :
  main content mp4_path framerate (Int (- n))
  = main content mp4_path framerate (Int n).
Proof.
  unfold main. rewrite calculate_frame_increment_opp.
  destruct (calculate_frame_increment (Int n) framerate); [|done].
  by rewrite get_meta_info_opp.
Qed.

(** ** The theorems at work on sample data *)

Lemma C1_reader_samples_qualifying_frames_witness :
  exists samples : list ImageData,
    get_meta_info (srt_text [demo_block; origin_block; demo_block]) 1
    = Some (Return samples)
    /\ StronglySorted Z.lt (frame_num <$> samples)
    /\ forall d : ImageData,
         d ∈ samples <->
         exists (i : nat) (b : block),
           [demo_block; origin_block; demo_block] !! i = Some b
           /\ aligned (Z.of_nat i) 1 = true
           /\ is_sentinel (attribute_line b) = false
           /\ sample (Z.of_nat i) (attribute_line b) = Some d.
Proof.
  apply (C1_reader_samples_qualifying_frames
           [demo_block; origin_block; demo_block] 1).
  - lia.
  - repeat constructor.
  - intros i b Hb _.
    destruct i as [|[|[|i]]]; vm_compute in Hb; try discriminate;
      injection Hb as <-; eexists; vm_compute; reflexivity.
Defined.

Lemma C2_sentinel_never_sampled_witness :
  (forall (i : nat) (l : string),
      attribute_lines (srt_text [demo_block; origin_block; demo_block]) !! i
      = Some l ->
      is_sentinel l = true ->
      Z.of_nat i ∉ frame_num <$> [demo_sample 0; demo_sample 2])
  /\ (forall d : ImageData,
        d ∈ [demo_sample 0; demo_sample 2] ->
        feqb (lat d) fzero && feqb (long d) fzero = false).
Proof.
  apply (C2_sentinel_never_sampled
           (srt_text [demo_block; origin_block; demo_block]) 1).
  vm_compute. reflexivity.
Defined.

Lemma C3_increment_is_truncated_product_witness :
  exists n : Z,
    calculate_frame_increment (Int 2) (round_Z 30) = Return n
    /\ ((0 <= Qvalue (fmul (round_Z 30) (round_Z 2)))%Q ->
        n = Qfloor (Qvalue (fmul (round_Z 30) (round_Z 2))))
    /\ ((Qvalue (fmul (round_Z 30) (round_Z 2)) <= 0)%Q ->
        n = Qceiling (Qvalue (fmul (round_Z 30) (round_Z 2))))
    /\ (0 < n <-> (1 <= Qvalue (fmul (round_Z 30) (round_Z 2)))%Q).
Proof.
  apply (C3_increment_is_truncated_product (Int 2) (round_Z 30) (round_Z 2)).
  - vm_compute. reflexivity.
  - vm_compute. reflexivity.
Defined.


Lemma C5_missing_key_stops_the_run_witness :
  get_meta_info (srt_text [demo_block; no_altitude_block; demo_block]) 1
  = Some (Raise (KeyError "abs_alt")).
Proof.
  apply (C5_missing_key_stops_the_run
           (srt_text [demo_block; no_altitude_block; demo_block]) 1 1
           (attribute_line no_altitude_block) "abs_alt").
  - lia.
  - vm_compute. reflexivity.
  - intros j l Hj Hl. destruct j as [|j]; [|lia].
    vm_compute in Hl. injection Hl as <-.
    right; right. eexists. vm_compute. reflexivity.
  - vm_compute. reflexivity.
  - apply missing_abs_alt.
    + eexists. vm_compute. reflexivity.
    + eexists. vm_compute. reflexivity.
    + vm_compute. reflexivity.
    + vm_compute. reflexivity.
Defined.


Lemma C7_exported_file_names_witness :
  exists written : list (string * ExifFields),
    save_images [frame_42] "a/b/clip.mp4" = Return written
    /\ written.*1 = ["./out/clip_42.jpg"].
Proof.
  apply (C7_exported_file_names "a/b/" "clip" ".mp4" [frame_42]).
  - right. exists "a/b". reflexivity.
  - reflexivity.
  - reflexivity.
  - reflexivity.
  - right. exists "mp4". reflexivity.
Defined.


Lemma C9_zero_increment_raises_witness :
  get_meta_info (srt_text [demo_block]) 0 = Some (Raise ZeroDivisionError)
  /\ get_meta_info (unlines demo_header) 0 = Some (Return []).
Proof.
  split.
  - apply (proj1 (C9_zero_increment_raises (srt_text [demo_block]))).
    vm_compute. lia.
  - apply (proj2 (C9_zero_increment_raises (unlines demo_header))).
    vm_compute. lia.
Defined.

Lemma C10_lookups_are_lazy_witness :
  get_meta_info
    (srt_text [sentinel_block; bare_block; demo_block; bare_block]) 2
  = Some (Return [demo_sample 2]).
Proof.
  apply (C10_lookups_are_lazy
           (srt_text [sentinel_block; bare_block; demo_block; bare_block]) 2).
  - lia.
  - intros i l Hl.
    destruct i as [|[|[|[|i]]]]; vm_compute in Hl; try discriminate;
      injection Hl as <-.
    + right; left. vm_compute. reflexivity.
    + left. vm_compute. reflexivity.
    + right; right. eexists. vm_compute. reflexivity.
    + left. vm_compute. reflexivity.
Defined.

(** ** The further properties at work on sample data *)

Lemma X1_reader_returns_iff_witness :
  get_meta_info (srt_text [demo_block; origin_block]) 1
  = Some (Return [demo_sample 0]).
Proof.
  apply (X1_reader_returns_iff (srt_text [demo_block; origin_block]) 1
           [demo_sample 0]).
  split; [vm_compute; reflexivity|]. split; [right; lia|].
  intros i l Hl.
  destruct i as [|[|i]]; vm_compute in Hl; try discriminate;
    injection Hl as <-; unfold passable.
  - right; right. eexists. vm_compute. reflexivity.
  - right; left. vm_compute. reflexivity.
Defined.


Lemma X3_invalid_value_stops_the_run_witness :
  get_meta_info (srt_text [demo_block; garbled_block; demo_block]) 1
  = Some (Raise ValueError).
Proof.
  apply (X3_invalid_value_stops_the_run
           (srt_text [demo_block; garbled_block; demo_block]) 1 1
           (attribute_line garbled_block) "latitude").
  - lia.
  - vm_compute. reflexivity.
  - intros j l Hj Hl. destruct j as [|j]; [|lia].
    vm_compute in Hl. injection Hl as <-.
    right; right. eexists. vm_compute. reflexivity.
  - vm_compute. reflexivity.
  - apply invalid_latitude. exists "n/a".
    split; vm_compute; reflexivity.
Defined.

Lemma X4_reader_ignores_other_lines_witness :
  get_meta_info (srt_text [demo_block; origin_block]) 1
  = get_meta_info (srt_text [renumbered_block; origin_block]) 1.
Proof.
  apply (X4_reader_ignores_other_lines [demo_block; origin_block]
           [renumbered_block; origin_block] 1).
  - repeat constructor.
  - repeat constructor.
  - reflexivity.
Defined.

Lemma X5_reader_drops_unfinished_frame_witness :
  get_meta_info
    (unlines (concat (map block_lines [demo_block])
              ++ ["2"; "00:00:00,033 --> 00:00:00,066"])) 1
  = get_meta_info (srt_text [demo_block]) 1.
Proof.
  apply (X5_reader_drops_unfinished_frame [demo_block]
           ["2"; "00:00:00,033 --> 00:00:00,066"] 1).
  - repeat constructor.
  - repeat constructor.
  - cbn. lia.
Defined.

Lemma X6_reader_extends_prefix_witness :
  exists earlier later : list ImageData,
    get_meta_info (srt_text [demo_block]) 1 = Some (Return earlier)
    /\ [demo_sample 0; demo_sample 2] = (earlier ++ later)%list
    /\ Forall (fun d => Z.of_nat (length [demo_block]) <= frame_num d) later.
Proof.
  apply (X6_reader_extends_prefix [demo_block] [origin_block; demo_block] 1
           [demo_sample 0; demo_sample 2]).
  - repeat constructor.
  - repeat constructor.
  - vm_compute. reflexivity.
Defined.

Lemma X7_reader_error_is_final_witness :
  get_meta_info (srt_text ([no_altitude_block] ++ [demo_block])) 1
  = Some (Raise (KeyError "abs_alt")).
Proof.
  apply (X7_reader_error_is_final [no_altitude_block] [demo_block] 1
           (KeyError "abs_alt")).
  - repeat constructor.
  - repeat constructor.
  - vm_compute. reflexivity.
Defined.

Lemma X8_reader_accepts_any_line_ending_witness :
  get_meta_info (join_lines CRLF (block_lines demo_block)) 1
  = get_meta_info (unlines (block_lines demo_block)) 1
  /\ get_meta_info (join_lines CR_only (block_lines demo_block)) 1
     = get_meta_info (unlines (block_lines demo_block)) 1.
Proof.
  apply (X8_reader_accepts_any_line_ending (block_lines demo_block) 1).
  repeat constructor.
Defined.

Lemma X10_stored_attributes_are_matches_witness :
  is_key "longitude" = true /\ is_value "2.5" = true
  /\ exists (before : string) (sp : ascii) (after : string),
       is_space sp = true
       /\ demo_attributes
          = before +:+ "longitude" +:+ String ":" (String sp ("2.5" +:+ after)).
Proof.
  apply (X10_stored_attributes_are_matches demo_attributes "longitude" "2.5").
  vm_compute. reflexivity.
Defined.

Lemma X11_rendered_attributes_read_back_witness :
  read_line_attributes
    (render_attributes
       [("latitude", "1.5"); ("longitude", "2.5"); ("latitude", "3.5")]
     +:+ String LF EmptyString) !! "latitude"
  = Some "3.5".
Proof.
  apply (X11_rendered_attributes_read_back
           [("latitude", "1.5"); ("longitude", "2.5"); ("latitude", "3.5")]
           (String LF EmptyString) "latitude").
  - repeat constructor.
  - reflexivity.
Defined.

Lemma X12_default_interval_increment_witness :
  calculate_frame_increment (Int DEFAULT_INC_SECONDS) ntsc_rate = Return 29.
Proof.
  apply (X12_default_interval_increment ntsc_rate).
  - reflexivity.
  - reflexivity.
Defined.

Lemma X13_interval_below_one_frame_aborts_witness :
  main (srt_text [demo_block]) "flight.mp4" half_fps (Int 1)
  = Some (Raise ZeroDivisionError).
Proof.
  apply (X13_interval_below_one_frame_aborts (srt_text [demo_block])
           "flight.mp4" half_fps (Int 1) (round_Z 1)).
  - reflexivity.
  - vm_compute. reflexivity.
  - vm_compute. reflexivity.
  - vm_compute. reflexivity.
  - vm_compute. lia.
Defined.

Lemma X15_save_images_never_overwrites_witness :
  exists written : list (string * ExifFields),
    save_images [demo_sample 0; demo_sample 1] "clips/flight.mp4"
    = Return written
    /\ NoDup written.*1.
Proof.
  apply (X15_save_images_never_overwrites [demo_sample 0; demo_sample 1]
           "clips/flight.mp4").
  apply (bool_decide_unpack _). vm_compute. exact I.
Defined.

Lemma X16_main_exports_qualifying_frames_witness :
  exists (stem : string) (written : list (string * ExifFields)),
    main (srt_text [demo_block; bare_block; demo_block]) "clips/flight.mp4"
      (round_Z 2) (Int 1)
    = Some (Return written)
    /\ written.*1
       = saved_name (OUTPUT_DIR +:+ stem +:+ "_")
         <$> expected 2 0
               (attribute_lines (srt_text [demo_block; bare_block; demo_block]))
    /\ NoDup written.*1.
Proof.
  apply (X16_main_exports_qualifying_frames
           (srt_text [demo_block; bare_block; demo_block]) "clips/flight.mp4"
           (round_Z 2) (Int 1) 2).
  - vm_compute. reflexivity.
  - lia.
  - intros i l Hl.
    destruct i as [|[|[|i]]]; vm_compute in Hl; try discriminate;
      injection Hl as <-; unfold passable.
    + right; right. eexists. vm_compute. reflexivity.
    + left. vm_compute. reflexivity.
    + right; right. eexists. vm_compute. reflexivity.
Defined.

Lemma X17_main_fails_before_export_witness :
  calculate_frame_increment (Int 1) (round_Z 1) = Raise (KeyError "abs_alt")
  \/ exists inc_frames : Z,
       calculate_frame_increment (Int 1) (round_Z 1) = Return inc_frames
       /\ get_meta_info (srt_text [no_altitude_block]) inc_frames
          = Some (Raise (KeyError "abs_alt")).
Proof.
  apply (X17_main_fails_before_export (srt_text [no_altitude_block])
           "flight.mp4" (round_Z 1) (Int 1) (KeyError "abs_alt")).
  vm_compute. reflexivity.
Defined.

Lemma X19_degrees_minutes_seconds_values_witness :
  exists deg mnt sec : float,
    decimal_degrees_to_minutes_seconds harbour_latitude
    = Return (deg, mnt, sec)
    /\ decimal_degrees_to_minutes_seconds (SFopp harbour_latitude)
       = Return (deg, mnt, sec)
    /\ (Qvalue deg
        == inject_Z
             (Qfloor (Qvalue (fmul (fabs harbour_latitude) (round_Z 3600))
                      / inject_Z 3600)))%Q
    /\ (Qvalue mnt
        == inject_Z
             (Qfloor (Qvalue (fmul (fabs harbour_latitude) (round_Z 3600))
                      / inject_Z 60) mod 60))%Q
    /\ (Qvalue sec
        == Qvalue (fmul (fabs harbour_latitude) (round_Z 3600))
           - inject_Z 60
             * inject_Z
                 (Qfloor (Qvalue (fmul (fabs harbour_latitude) (round_Z 3600))
                          / inject_Z 60)))%Q.
Proof.
  apply (X19_degrees_minutes_seconds_values harbour_latitude).
  - reflexivity.
  - vm_compute. reflexivity.
  - vm_compute. reflexivity.
Defined.

Lemma X20_samples_every_increment_witness :
  exists samples : list ImageData,
    get_meta_info (srt_text [demo_block; bare_block; demo_block]) 2
    = Some (Return samples)
    /\ frame_num <$> samples = [0; 2].
Proof.
  apply (X20_samples_every_increment
           (srt_text [demo_block; bare_block; demo_block]) 2).
  - lia.
  - intros i l Hl Ha.
    destruct i as [|[|[|i]]]; vm_compute in Hl; try discriminate;
      injection Hl as <-; vm_compute in Ha; try discriminate;
      (split; [vm_compute; reflexivity|]); eexists; vm_compute; reflexivity.
Defined.
